(** * torbot: the access gate of the Tor management bot

    A shallow embedding of [torbot.py].  The three module-level
    dictionaries ([authenticated_users], [user_preferences],
    [user_last_update]) are finite maps keyed by the numeric user id, the
    handlers are computations in a small state-and-exception monad that
    threads those dictionaries together with the trace of everything the
    process sends out (chat replies, Tor control commands, log records)
    and of the job queue starting a scheduled callback.

    Conventions of the model:
    - Python [str] is [string]; [str.upper] and [str.strip] are given on
      ASCII text, which is what country codes and passwords are;
    - [asyncio.get_event_loop().time()] is read from the environment of a
      handler invocation as an exact rational number of seconds;
    - the Tor controller may raise at any of its four calls, as the
      environment decides; sending a chat message is an output and does
      not raise. *)

From Stdlib Require Import Ascii String QArith Qround Lqa.
From stdpp Require Import base numbers option gmap strings list sorting pretty.

Local Open Scope Z_scope.
Local Open Scope string_scope.
Local Open Scope list_scope.

(** ** Strings *)

Module Str.

(** [c.upper()] for one ASCII character. *)
Definition upper_char (c : ascii) : ascii :=
  let n := N_of_ascii c in
  if ((97 <=? n) && (n <=? 122))%N then ascii_of_N (n - 32) else c.

(** [s.upper()]. *)
Fixpoint upper (s : string) : string :=
  match s with
  | EmptyString => EmptyString
  | String c s' => String (upper_char c) (upper s')
  end.

(** [c.isspace()] on ASCII: TAB..CR, FS..US and the blank. *)
Definition isspace (c : ascii) : bool :=
  let n := N_of_ascii c in
  (((9 <=? n) && (n <=? 13)) || ((28 <=? n) && (n <=? 32)))%N.

(** [s.lstrip()]. *)
Fixpoint lstrip (s : string) : string :=
  match s with
  | EmptyString => EmptyString
  | String c s' => if isspace c then lstrip s' else s
  end.

(** [s.rstrip()]. *)
Fixpoint rstrip (s : string) : string :=
  match s with
  | EmptyString => EmptyString
  | String c s' =>
      match rstrip s' with
      | EmptyString => if isspace c then EmptyString else String c EmptyString
      | r => String c r
      end
  end.

(** [s.strip()]. *)
Definition strip (s : string) : string := rstrip (lstrip s).

(** [s.split(sep)] for a one-character separator: the pieces between
    the separators, empty pieces included, so never the empty list. *)
Fixpoint split (sep : ascii) (s : string) : list string :=
  match s with
  | EmptyString => [EmptyString]
  | String c s' =>
      if Ascii.eqb c sep then EmptyString :: split sep s'
      else match split sep s' with
           | [] => [String c EmptyString]
           | w :: ws => String c w :: ws
           end
  end.

(** [sep.join(parts)]. *)
Fixpoint join (sep : string) (parts : list string) : string :=
  match parts with
  | [] => ""
  | [p] => p
  | p :: ps => p +:+ sep +:+ join sep ps
  end.

(** Truth value of a string: non-empty. *)
Definition truthy (s : string) : bool :=
  match s with EmptyString => false | _ => true end.

End Str.

(** ** Configuration read from the environment at import time *)

Record Config := {
  TELEGRAM_BOT_TOKEN : option string;
  AUTH_PASSWORD : string;
  TOR_CONTROL_PASSWORD : string;
  TOR_CONTROL_PORT : Z;
  ALLOWED_COUNTRIES_ENV : string;
}.

(** The values [os.getenv] falls back to, with a token set. *)
Definition default_config (token : string) : Config := {|
  TELEGRAM_BOT_TOKEN := Some token;
  AUTH_PASSWORD := "AUTHENTICATE_PASSWORD_MUST_BE_HERE";
  TOR_CONTROL_PASSWORD := "YOUR_PASSWORD_MUST_BE_HERE";
  TOR_CONTROL_PORT := 9051;
  ALLOWED_COUNTRIES_ENV :=
    "NO,FI,DK,SE,IS,NL,DE,CA,CH,NZ,AU,BE,IE,EE,PT,LU,UY,TW,JP,KR";
|}.

Definition BLOCKED_USER_IDS : gset Z := {[ 123456789; 987654321 ]}.

Definition EASTER_EGG_FILE : string := "easter_egg.mp3".

(** [set(country.strip().upper()
         for country in ALLOWED_COUNTRIES_ENV.split(',')
         if country.strip())] *)
Definition VALID_COUNTRIES (cfg : Config) : gset string :=
  list_to_set
    (map (fun country => Str.upper (Str.strip country))
       (filter (fun country => Is_true (Str.truthy (Str.strip country)))
          (Str.split "," (ALLOWED_COUNTRIES_ENV cfg)))).

Definition RATE_LIMIT : Q := inject_Z (5 * 60).

Definition is_blocked (user_id : Z) : bool :=
  bool_decide (user_id ∈ BLOCKED_USER_IDS).

(** ** What the process sends out *)

(** Calls on the [stem] controller, in the order they are issued. *)
Inductive tor_cmd :=
| FromPort (port : Z)
| Authenticate (password : string)
| SetOptions (ExitNodes StrictNodes : string)
| SignalNEWNYM
| Close.

Inductive log_level := INFO | WARNING | ERROR.

Record InlineQueryResultArticle := {
  id : string;
  title : string;
  input_message_content : string;
}.

Inductive event :=
| ReplyText (text : string) (parse_mode : option string)
| ReplyAudio (file : string)
| AnswerInlineQuery (query_id : string)
    (results : list InlineQueryResultArticle) (cache_time : Z)
| Tor (c : tor_cmd)
| Log (level : log_level) (msg : string)
| JobStarted (name : string).

(** ** State, exceptions and the handler monad *)

Record exn := Exception { exn_str : string }.

(** The module-level dictionaries. *)
Record Store := {
  authenticated_users : gmap Z bool;
  user_preferences : gmap Z string;
  user_last_update : gmap Z Q;
}.

Definition empty_store : Store := {|
  authenticated_users := ∅;
  user_preferences := ∅;
  user_last_update := ∅;
|}.

Inductive result (A : Type) :=
| Val (a : A)
| Raised (e : exn).
Arguments Val {A} a.
Arguments Raised {A} e.

(** Running a computation from a store gives a value or an exception,
    the store as the computation left it (a raised exception undoes
    nothing) and the events emitted on the way. *)
Record Outcome (A : Type) := {
  res : result A;
  store : Store;
  emitted : list event;
}.
Arguments res {A} _.
Arguments store {A} _.
Arguments emitted {A} _.

Definition M (A : Type) : Type := Store -> Outcome A.

Definition ret {A} (a : A) : M A :=
  fun s => {| res := Val a; store := s; emitted := [] |}.

Definition bind {A B} (m : M A) (k : A -> M B) : M B :=
  fun s =>
    match m s with
    | {| res := Val a; store := s1; emitted := out1 |} =>
        match k a s1 with
        | {| res := r; store := s2; emitted := out2 |} =>
            {| res := r; store := s2; emitted := out1 ++ out2 |}
        end
    | {| res := Raised e; store := s1; emitted := out1 |} =>
        {| res := Raised e; store := s1; emitted := out1 |}
    end.

Definition raise {A} (e : exn) : M A :=
  fun s => {| res := Raised e; store := s; emitted := [] |}.

(** [try: m  except Exception as e: h e] *)
Definition try_except {A} (m : M A) (h : exn -> M A) : M A :=
  fun s =>
    match m s with
    | {| res := Val a; store := s1; emitted := out1 |} =>
        {| res := Val a; store := s1; emitted := out1 |}
    | {| res := Raised e; store := s1; emitted := out1 |} =>
        match h e s1 with
        | {| res := r; store := s2; emitted := out2 |} =>
            {| res := r; store := s2; emitted := out1 ++ out2 |}
        end
    end.

(** [try: m  finally: f], the shape of a [with] block. *)
Definition finally {A} (m : M A) (f : M unit) : M A :=
  fun s =>
    match m s with
    | {| res := r; store := s1; emitted := out1 |} =>
        match f s1 with
        | {| res := Val _; store := s2; emitted := out2 |} =>
            {| res := r; store := s2; emitted := out1 ++ out2 |}
        | {| res := Raised e; store := s2; emitted := out2 |} =>
            {| res := Raised e; store := s2; emitted := out1 ++ out2 |}
        end
    end.

Definition emit (e : event) : M unit :=
  fun s => {| res := Val tt; store := s; emitted := [e] |}.

Definition get : M Store :=
  fun s => {| res := Val s; store := s; emitted := [] |}.

Definition modify (f : Store -> Store) : M unit :=
  fun s => {| res := Val tt; store := f s; emitted := [] |}.

(** The monad operations under stdpp's notations [x ← m; k] and
    [m ;; k]. *)
#[global] Instance M_ret : MRet M := @ret.
#[global] Instance M_bind : MBind M := fun A B k m => bind m k.

(** ** The environment of one handler invocation *)

(** How the Tor controller answers during this invocation: for each of
    its calls, [None] when it succeeds and the exception it raises
    otherwise. *)
Record Controller := {
  from_port_raises : option exn;
  authenticate_raises : option exn;
  set_options_raises : option exn;
  signal_raises : option exn;
}.

Record Env := {
  time : Q;
  controller : Controller;
  easter_egg_exists : bool;
}.

(** An inbound update, with the arguments the dispatcher parsed. *)
Record Update := {
  effective_user_id : Z;
  effective_user_first_name : string;
  args : list string;
  inline_query_id : string;
  inline_query_query : string;
}.

(** One controller call: issued, then it returns or raises. *)
Definition tor (c : tor_cmd) (raises : option exn) : M unit :=
  emit (Tor c) ;;
  match raises with
  | None => ret tt
  | Some e => raise e
  end.

Definition logger_info (msg : string) : M unit := emit (Log INFO msg).
Definition logger_warning (msg : string) : M unit := emit (Log WARNING msg).
Definition logger_error (msg : string) : M unit := emit (Log ERROR msg).

Definition reply_text (text : string) : M unit := emit (ReplyText text None).
Definition reply_html (text : string) : M unit :=
  emit (ReplyText text (Some "HTML")).

(** [f"... {first_name} (ID: {user_id})"] *)
Definition who (update : Update) : string :=
  effective_user_first_name update +:+ " (ID: " +:+
  pretty (effective_user_id update) +:+ ")".

(** ** Identity rotation *)

Definition update_identity (cfg : Config) (ctl : Controller)
    (preferred_country : option string) : M unit :=
  try_except
    (tor (FromPort (TOR_CONTROL_PORT cfg)) (from_port_raises ctl) ;;
     finally
       (tor (Authenticate (TOR_CONTROL_PASSWORD cfg)) (authenticate_raises ctl) ;;
        match preferred_country with
        | Some country =>
            if Str.truthy country
               && bool_decide (Str.upper country ∈ VALID_COUNTRIES cfg)
            then
              tor (SetOptions ("{" +:+ Str.upper country +:+ "}") "1")
                  (set_options_raises ctl) ;;
              logger_info ("Set ExitNodes to country: " +:+ Str.upper country)
            else
              tor (SetOptions "" "0") (set_options_raises ctl) ;;
              logger_info "Cleared ExitNodes preferences."
        | None =>
            tor (SetOptions "" "0") (set_options_raises ctl) ;;
            logger_info "Cleared ExitNodes preferences."
        end ;;
        tor SignalNEWNYM (signal_raises ctl))
       (emit (Tor Close)) ;;
     logger_info "Tor identity updated successfully.")
    (fun e =>
       logger_error ("Error while updating Tor identity: " +:+ exn_str e) ;;
       raise e).

(** ** Arithmetic on the clock *)

(** [x < y] on clock values. *)
Definition Qltb (x y : Q) : bool := negb (Qle_bool y x).

(** [int(x)]: truncation toward zero. *)
Definition int (x : Q) : Z := Z.quot (Qnum x) (Z.pos (Qden x)).

(** ** Command handlers *)

Definition start_command (cfg : Config) (env : Env) (update : Update) : M unit :=
  let user_id := effective_user_id update in
  try_except
    (if is_blocked user_id then
       if easter_egg_exists env then
         emit (ReplyAudio EASTER_EGG_FILE) ;;
         logger_info ("Easter egg sent to blocked user " +:+ who update +:+ ".")
       else
         reply_text "Easter egg file not found. Please call the administrator." ;;
         logger_error ("Easter egg file '" +:+ EASTER_EGG_FILE +:+ "' not found.")
     else
       reply_text "Tor management bot. Use /auth <password> to authenticate." ;;
       logger_info ("Bot started by user " +:+ who update +:+ "."))
    (fun e =>
       logger_error ("Error in start command: " +:+ exn_str e) ;;
       reply_text "An error occurred while processing your request.").

Definition help_text : string :=
  "<b>Available commands:</b>" +:+ String "010" (String "010" "") +:+
  "/start - Start the bot." +:+ String "010" "" +:+
  "/auth &lt;password&gt; - Authenticate to use protected commands." +:+ String "010" "" +:+
  "/update - Update your Tor identity." +:+ String "010" "" +:+
  "/setcountry &lt;country_code&gt; - Set your preferred country for Tor exit nodes (e.g., US, JP)." +:+ String "010" "" +:+
  "/reset - Reset your preferred country and update Tor identity without restrictions." +:+ String "010" "" +:+
  "/countries - Show a list of available countries for selection." +:+ String "010" "" +:+
  "/help - Show this help message.".

Definition help_command (cfg : Config) (env : Env) (update : Update) : M unit :=
  let user_id := effective_user_id update in
  try_except
    (if is_blocked user_id then
       reply_text "A?" ;;
       logger_info ("Blocked user " +:+ who update +:+ " attempted to use /help.")
     else
       reply_html help_text ;;
       logger_info ("Help requested by user " +:+ who update +:+ "."))
    (fun e =>
       logger_error ("Error in help command: " +:+ exn_str e) ;;
       reply_text "An error occurred while generating the help message.").

Definition auth_command (cfg : Config) (env : Env) (update : Update) : M unit :=
  let user_id := effective_user_id update in
  try_except
    (if is_blocked user_id then
       reply_text "A?" ;;
       logger_info ("Blocked user " +:+ who update +:+ " attempted to use /auth.")
     else
       s ← get;
       if bool_decide (user_id ∈ dom (authenticated_users s)) then
         reply_text "You are already authenticated." ;;
         logger_info ("User " +:+ who update +:+ " attempted to re-authenticate.")
       else
         match args update with
         | [arg] =>
             let input_password := Str.strip arg in
             let correct_password := Str.strip (AUTH_PASSWORD cfg) in
             if bool_decide (input_password = correct_password) then
               modify (fun s => {|
                 authenticated_users := <[user_id := true]> (authenticated_users s);
                 user_preferences := user_preferences s;
                 user_last_update := user_last_update s |}) ;;
               reply_text "Authentication successful! Now you can use commands." ;;
               logger_info ("User " +:+ who update +:+ " authenticated successfully.")
             else
               reply_text "Incorrect password. Please try again." ;;
               logger_warning ("User " +:+ who update +:+ " failed authentication.")
         | _ =>
             reply_text "Usage: /auth <password>" ;;
             logger_warning ("User " +:+ who update +:+
                             " used incorrect /auth command format.")
         end)
    (fun e =>
       logger_error ("Error in auth command: " +:+ exn_str e) ;;
       reply_text "An error occurred during authentication.").

Definition not_authenticated_text : string :=
  "You are not authenticated! Please authenticate using /auth <password>.".

(** [f'Please wait {int(wait_time)} seconds before the next update.'] *)
Definition please_wait (wait_time : Q) : string :=
  "Please wait " +:+ pretty (int wait_time) +:+ " seconds before the next update.".

Definition update_command (cfg : Config) (env : Env) (update : Update) : M unit :=
  let user_id := effective_user_id update in
  try_except
    (if is_blocked user_id then
       reply_text "You are not allowed to use this bot." ;;
       logger_info ("Blocked user " +:+ who update +:+ " attempted to use /update.")
     else
       s ← get;
       if negb (bool_decide (user_id ∈ dom (authenticated_users s))) then
         reply_text not_authenticated_text ;;
         logger_info ("Unauthenticated user " +:+ who update +:+
                      " attempted to update identity.")
       else
         let current_time := time env in
         let last_update := default (0 : Q) (user_last_update s !! user_id) in
         if Qltb (current_time - last_update) RATE_LIMIT then
           let wait_time := (RATE_LIMIT - (current_time - last_update))%Q in
           reply_text (please_wait wait_time) ;;
           logger_info ("User " +:+ who update +:+ " is rate limited for /update.")
         else
           let preferred_country := user_preferences s !! user_id in
           update_identity cfg (controller env) preferred_country ;;
           modify (fun s => {|
             authenticated_users := authenticated_users s;
             user_preferences := user_preferences s;
             user_last_update := <[user_id := current_time]> (user_last_update s) |}) ;;
           reply_text "Your Tor identity has been updated!" ;;
           logger_info ("User " +:+ who update +:+ " updated their Tor identity."))
    (fun e =>
       logger_error ("Error in update command: " +:+ exn_str e) ;;
       reply_text "An error occurred while updating your identity.").

Definition set_country_command (cfg : Config) (env : Env) (update : Update) : M unit :=
  let user_id := effective_user_id update in
  try_except
    (if is_blocked user_id then
       reply_text "A?" ;;
       logger_info ("Blocked user " +:+ who update +:+ " attempted to use /setcountry.")
     else
       s ← get;
       if negb (bool_decide (user_id ∈ dom (authenticated_users s))) then
         reply_text not_authenticated_text ;;
         logger_info ("Unauthenticated user " +:+ who update +:+
                      " attempted to set country.")
       else
         match args update with
         | [arg] =>
             let country_code := Str.upper arg in
             if negb (bool_decide (country_code ∈ VALID_COUNTRIES cfg)) then
               reply_text "Invalid country code. Please use a two letter ISO code of country (e.g., US, JP, KR)." ;;
               logger_warning ("User " +:+ who update +:+
                               " provided invalid country code: " +:+ country_code +:+ ".")
             else
               modify (fun s => {|
                 authenticated_users := authenticated_users s;
                 user_preferences := <[user_id := country_code]> (user_preferences s);
                 user_last_update := user_last_update s |}) ;;
               reply_text ("Preferred country set to: " +:+ country_code) ;;
               logger_info ("User " +:+ who update +:+
                            " set preferred country to " +:+ country_code +:+ ".")
         | _ =>
             reply_text "Usage: /setcountry <country_code>" ;;
             logger_warning ("User " +:+ who update +:+
                             " used incorrect /setcountry command format.")
         end)
    (fun e =>
       logger_error ("Error in set_country command: " +:+ exn_str e) ;;
       reply_text "An error occurred while setting your preferred country.").

Definition reset_command (cfg : Config) (env : Env) (update : Update) : M unit :=
  let user_id := effective_user_id update in
  try_except
    (if is_blocked user_id then
       reply_text "A?" ;;
       logger_info ("Blocked user " +:+ who update +:+ " attempted to use /reset.")
     else
       s ← get;
       if negb (bool_decide (user_id ∈ dom (authenticated_users s))) then
         reply_text not_authenticated_text ;;
         logger_info ("Unauthenticated user " +:+ who update +:+
                      " attempted to reset preferences.")
       else
         let current_time := time env in
         let last_update := default (0 : Q) (user_last_update s !! user_id) in
         if Qltb (current_time - last_update) RATE_LIMIT then
           let wait_time := (RATE_LIMIT - (current_time - last_update))%Q in
           reply_text (please_wait wait_time) ;;
           logger_info ("User " +:+ who update +:+ " is rate limited for /reset.")
         else
           (if bool_decide (user_id ∈ dom (user_preferences s)) then
              modify (fun s => {|
                authenticated_users := authenticated_users s;
                user_preferences := delete user_id (user_preferences s);
                user_last_update := user_last_update s |}) ;;
              logger_info ("User " +:+ who update +:+
                           " reset their country preference.")
            else mret tt) ;;
           update_identity cfg (controller env) None ;;
           modify (fun s => {|
             authenticated_users := authenticated_users s;
             user_preferences := user_preferences s;
             user_last_update := <[user_id := current_time]> (user_last_update s) |}) ;;
           reply_text "Your country preferences have been reset and Tor identity updated!" ;;
           logger_info ("User " +:+ who update +:+
                        " reset preferences and updated Tor identity."))
    (fun e =>
       logger_error ("Error in reset command: " +:+ exn_str e) ;;
       reply_text "An error occurred while resetting your preferences.").

Definition countries_command (cfg : Config) (env : Env) (update : Update) : M unit :=
  let user_id := effective_user_id update in
  try_except
    (if is_blocked user_id then
       reply_text "You are not allowed to use this bot." ;;
       logger_info ("Blocked user " +:+ who update +:+ " attempted to use /countries.")
     else
       s ← get;
       if negb (bool_decide (user_id ∈ dom (authenticated_users s))) then
         reply_text not_authenticated_text ;;
         logger_info ("Unauthenticated user " +:+ who update +:+
                      " attempted to use /countries.")
       else if (0 <? length (args update))%nat then
         reply_text "Usage: /countries" ;;
         logger_warning ("User " +:+ who update +:+
                         " used incorrect /countries command format.")
       else
         let countries_list :=
           Str.join ", " (merge_sort String.le (elements (VALID_COUNTRIES cfg))) in
         reply_html ("Available countries:" +:+ String "010" "" +:+ countries_list) ;;
         logger_info ("Countries list requested by user " +:+ who update +:+ "."))
    (fun e =>
       logger_error ("Error in countries command: " +:+ exn_str e) ;;
       reply_text "An error occurred while fetching the countries list.").

Definition inline_query_handler (cfg : Config) (env : Env) (update : Update) : M unit :=
  let query := inline_query_query update in
  if negb (Str.truthy query) then mret tt
  else
    let user_id := effective_user_id update in
    try_except
      (if is_blocked user_id then
         emit (AnswerInlineQuery (inline_query_id update) [] 1) ;;
         logger_info ("Blocked user " +:+ who update +:+
                      " attempted to use inline query.")
       else
         update_identity cfg (controller env) None ;;
         let result := {|
           id := "1";
           title := "Update Tor Identity";
           input_message_content := "Your Tor identity has been updated!" |} in
         emit (AnswerInlineQuery (inline_query_id update) [result] 1) ;;
         logger_info ("Inline query handled by user " +:+ who update +:+ "."))
      (fun e =>
         logger_error ("Error in inline query handler: " +:+ exn_str e)).

Definition tor_identity_update_job (cfg : Config) (env : Env) : M unit :=
  try_except
    (update_identity cfg (controller env) None ;;
     logger_info "Periodic Tor identity update completed.")
    (fun e =>
       logger_error ("Error during periodic Tor identity update: " +:+ exn_str e)).

Definition error_handler (has_message : bool) (e : exn) : M unit :=
  logger_error ("Exception while handling an update: " +:+ exn_str e) ;;
  if has_message then reply_text "An error occurred. Please try again later."
  else mret tt.

(** ** The application: handler table, job queue, polling loop *)

Inductive Handler :=
| CommandHandler (command : string) (callback : Config -> Env -> Update -> M unit)
| InlineQueryHandler (callback : Config -> Env -> Update -> M unit).

(** A job scheduled with [run_once]: it runs when [when] seconds have
    passed since start-up and is then gone from the queue. *)
Record Job := {
  job_name : string;
  job_callback : Config -> Env -> M unit;
  when : Z;
}.

Record Application := {
  handlers : list Handler;
  error_handlers : list (bool -> exn -> M unit);
  job_queue : list Job;
}.

Definition add_handler (h : Handler) (app : Application) : Application :=
  {| handlers := handlers app ++ [h];
     error_handlers := error_handlers app;
     job_queue := job_queue app |}.

Definition add_error_handler (h : bool -> exn -> M unit)
    (app : Application) : Application :=
  {| handlers := handlers app;
     error_handlers := error_handlers app ++ [h];
     job_queue := job_queue app |}.

Definition run_once (name : string) (callback : Config -> Env -> M unit)
    (when : Z) (app : Application) : Application :=
  {| handlers := handlers app;
     error_handlers := error_handlers app;
     job_queue := job_queue app ++
       [{| job_name := name; job_callback := callback; when := when |}] |}.

(** [main()] up to [run_polling]: [None] when the token is not set,
    otherwise the application as built, with the log lines written.
    [initial_interval] is the value of [random.randint(2700, 4500)]. *)
Definition main (cfg : Config) (initial_interval : Z)
    : option Application * list event :=
  match TELEGRAM_BOT_TOKEN cfg with
  | None | Some EmptyString =>
      (None, [Log ERROR "TELEGRAM_BOT_TOKEN is not set. Exiting."])
  | Some _ =>
      let application :=
        {| handlers := []; error_handlers := []; job_queue := [] |} in
      let application := add_handler (CommandHandler "start" start_command) application in
      let application := add_handler (CommandHandler "help" help_command) application in
      let application := add_handler (CommandHandler "auth" auth_command) application in
      let application := add_handler (CommandHandler "update" update_command) application in
      let application := add_handler (CommandHandler "setcountry" set_country_command) application in
      let application := add_handler (CommandHandler "reset" reset_command) application in
      let application := add_handler (CommandHandler "countries" countries_command) application in
      let application := add_handler (InlineQueryHandler inline_query_handler) application in
      let application := add_error_handler error_handler application in
      let application :=
        run_once "tor_identity_update_job" tor_identity_update_job
          initial_interval application in
      (Some application,
       [Log INFO ("Scheduled first Tor identity update after " +:+
                  pretty initial_interval +:+ " seconds.");
        Log INFO "Starting bot"])
  end.

(** What the polling loop can be woken by. *)
Inductive Incoming :=
| Message (command : string) (env : Env) (update : Update)
| InlineQuery (env : Env) (update : Update)
| Timer (seconds_since_start : Z) (env : Env).

(** The first registered handler that accepts the update. *)
Fixpoint find_handler (hs : list Handler) (inc : Incoming)
    : option (Config -> Env -> Update -> M unit) :=
  match hs with
  | [] => None
  | CommandHandler command callback :: hs' =>
      match inc with
      | Message c _ _ =>
          if bool_decide (c = command) then Some callback
          else find_handler hs' inc
      | _ => find_handler hs' inc
      end
  | InlineQueryHandler callback :: hs' =>
      match inc with
      | InlineQuery _ _ => Some callback
      | _ => find_handler hs' inc
      end
  end.

(** An exception that leaves a callback goes to the error handlers. *)
Definition guarded (app : Application) (has_message : bool) (m : M unit) : M unit :=
  try_except m
    (fun e => foldr (fun h k => h has_message e ;; k) (mret tt) (error_handlers app)).

(** The jobs due at [t], each started once, in queue order. *)
Fixpoint run_due (app : Application) (cfg : Config) (env : Env) (t : Z)
    (jobs : list Job) : M unit :=
  match jobs with
  | [] => mret tt
  | j :: jobs' =>
      (if bool_decide (when j <= t) then
         emit (JobStarted (job_name j)) ;;
         guarded app false (job_callback j cfg env)
       else mret tt) ;;
      run_due app cfg env t jobs'
  end.

Record Process := {
  application : Application;
  globals : Store;
  trace : list event;
}.

(** One turn of the loop. *)
Definition process (cfg : Config) (inc : Incoming) (p : Process) : Process :=
  let app := application p in
  match inc with
  | Message _ env update | InlineQuery env update =>
      let o :=
        match find_handler (handlers app) inc with
        | Some callback =>
            guarded app (match inc with Message _ _ _ => true | _ => false end)
              (callback cfg env update) (globals p)
        | None => ret tt (globals p)
        end in
      {| application := app; globals := store o;
         trace := trace p ++ emitted o |}
  | Timer t env =>
      let o := run_due app cfg env t (job_queue app) (globals p) in
      {| application :=
           {| handlers := handlers app;
              error_handlers := error_handlers app;
              job_queue :=
                filter (fun j => ¬ (when j <= t)) (job_queue app) |};
         globals := store o;
         trace := trace p ++ emitted o |}
  end.

(** [application.run_polling()] over the updates and timer ticks that
    arrive during the life of the process. *)
Definition run_polling (cfg : Config) (incoming : list Incoming)
    (p : Process) : Process :=
  foldl (fun p inc => process cfg inc p) p incoming.

(** The process from start-up: [main] and then the loop.  Without a
    token [main] returns and nothing is ever handled. *)
Definition torbot (cfg : Config) (initial_interval : Z)
    (incoming : list Incoming) : list event * Store :=
  match main cfg initial_interval with
  | (Some app, log) =>
      let p := run_polling cfg incoming
                 {| application := app; globals := empty_store; trace := log |} in
      (trace p, globals p)
  | (None, log) => (log, empty_store)
  end.

(** ** Reading a trace *)

(** The chat replies of a trace, in order. *)
Definition replies (tr : list event) : list string :=
  omap (fun e => match e with ReplyText text _ => Some text | _ => None end) tr.

(** What reached the user at all: text, audio, inline answers. *)
Definition is_user_visible (e : event) : bool :=
  match e with
  | ReplyText _ _ | ReplyAudio _ | AnswerInlineQuery _ _ _ => true
  | _ => false
  end.

(** The controller calls of a trace, in order. *)
Definition tor_cmds (tr : list event) : list tor_cmd :=
  omap (fun e => match e with Tor c => Some c | _ => None end) tr.

(** How often the rotation client was invoked: every invocation opens
    with [Controller.from_port]. *)
Definition rotations (tr : list event) : nat :=
  length (omap (fun c => match c with FromPort port => Some port | _ => None end)
            (tor_cmds tr)).

(** How often the job queue started a callback. *)
Definition job_runs (tr : list event) : nat :=
  length (omap (fun e => match e with JobStarted n => Some n | _ => None end) tr).

(** ** Vocabulary of the properties *)

(** The events of a trace that reached the user. *)
Definition user_visible (tr : list event) : list event :=
  List.filter is_user_visible tr.

(** The controller is [healthy] when none of its calls raises, and
    [e] is one of its [faults] when some call raises [e]. *)
Definition healthy (ctl : Controller) : Prop :=
  from_port_raises ctl = None ∧ authenticate_raises ctl = None ∧
  set_options_raises ctl = None ∧ signal_raises ctl = None.

Definition faults (ctl : Controller) (e : exn) : Prop :=
  from_port_raises ctl = Some e ∨ authenticate_raises ctl = Some e ∨
  set_options_raises ctl = Some e ∨ signal_raises ctl = Some e.

Definition healthy_controller : Controller := {|
  from_port_raises := None; authenticate_raises := None;
  set_options_raises := None; signal_raises := None |}.

(** The invariant on stored preferences. *)
Definition prefs_valid (cfg : Config) (s : Store) : Prop :=
  ∀ u c, user_preferences s !! u = Some c → c ∈ VALID_COUNTRIES cfg.

(** The callbacks [main] registers, in registration order. *)
Definition command_handlers : list (Config -> Env -> Update -> M unit) :=
  [start_command; help_command; auth_command; update_command;
   set_country_command; reset_command; countries_command;
   inline_query_handler].

(** The three ways a handler invoked by user [u] may leave the
    preference dictionary: as it was, without [u]'s entry, or with
    [u]'s entry set to an allowed country. *)
Definition prefs_written (cfg : Config) (u : Z)
    (before after : gmap Z string) : Prop :=
  after = before ∨ after = delete u before ∨
  ∃ c, c ∈ VALID_COUNTRIES cfg ∧ after = <[u := c]> before.

(** The callback of a registered handler. *)
Definition callback_of (h : Handler) : Config -> Env -> Update -> M unit :=
  match h with
  | CommandHandler _ callback => callback
  | InlineQueryHandler callback => callback
  end.

(** An application as [main] builds it: the registered callbacks are
    the eight handlers, the one error handler is [error_handler], and
    every queued job is the rotation job. *)
Definition as_built (app : Application) : Prop :=
  (∀ h, h ∈ handlers app → callback_of h ∈ command_handlers) ∧
  error_handlers app = [error_handler] ∧
  (∀ j, j ∈ job_queue app → job_callback j = tor_identity_update_job).

(** [wait_reply n] is the rate-limit reply that reports [n] seconds. *)
Definition wait_reply (n : Z) : string :=
  "Please wait " +:+ pretty n +:+ " seconds before the next update.".

(** The branch [update_identity] takes on its argument. *)
Definition restricts (cfg : Config) (preferred_country : option string) : bool :=
  match preferred_country with
  | Some country =>
      Str.truthy country && bool_decide (Str.upper country ∈ VALID_COUNTRIES cfg)
  | None => false
  end.

(** The command names [main] registers, with their callbacks. *)
Definition command_table : list (string * (Config -> Env -> Update -> M unit)) :=
  [("start", start_command); ("help", help_command); ("auth", auth_command);
   ("update", update_command); ("setcountry", set_country_command);
   ("reset", reset_command); ("countries", countries_command)].

(** The handlers that ask for authentication. *)
Definition protected_handlers : list (Config -> Env -> Update -> M unit) :=
  [update_command; set_country_command; reset_command; countries_command].

(** What the dictionaries have in common in every state the process
    reaches: a stored flag is [True], and only users who authenticated
    have a preference or a timestamp. *)
Definition store_consistent (s : Store) : Prop :=
  (∀ v b, authenticated_users s !! v = Some b → b = true) ∧
  dom (user_preferences s) ⊆ dom (authenticated_users s) ∧
  dom (user_last_update s) ⊆ dom (authenticated_users s).

(** A timer tick at which a job scheduled after [interval] seconds is due. *)
Definition due (interval : Z) (inc : Incoming) : bool :=
  match inc with
  | Timer t _ => bool_decide (interval <= t)
  | _ => false
  end.

(** The options a rotation sets for a country argument. *)
Definition exit_nodes (cfg : Config) (preferred_country : option string)
    : string * string :=
  if restricts cfg preferred_country
  then ("{" +:+ Str.upper (default "" preferred_country) +:+ "}", "1")
  else ("", "0").

(** No blocked user has an entry in any dictionary. *)
Definition no_blocked_entry (s : Store) : Prop :=
  ∀ v, is_blocked v = true →
    authenticated_users s !! v = None ∧
    user_preferences s !! v = None ∧
    user_last_update s !! v = None.

(** [needle in haystack]. *)
Definition contains (needle haystack : string) : bool :=
  match index 0 needle haystack with
  | Some _ => true
  | None => false
  end.

(** ** Sample inputs *)

Definition sample_config : Config := default_config "0000000000:token".

Definition refused : exn := Exception "[Errno 111] Connection refused".

(** No control port is listening. *)
Definition unreachable_controller : Controller := {|
  from_port_raises := Some refused; authenticate_raises := None;
  set_options_raises := None; signal_raises := None |}.

Definition sample_env (now : Q) (ctl : Controller) : Env :=
  {| time := now; controller := ctl; easter_egg_exists := false |}.

(** A message or inline query of user 42. *)
Definition sample_update (arguments : list string) : Update := {|
  effective_user_id := 42;
  effective_user_first_name := "Ann";
  args := arguments;
  inline_query_id := "7";
  inline_query_query := "new";
|}.

(** User 42 has authenticated, prefers Japan and last rotated at 1000 s. *)
Definition sample_store : Store := {|
  authenticated_users := {[ 42 := true ]};
  user_preferences := {[ 42 := "JP" ]};
  user_last_update := {[ 42 := inject_Z 1000 ]};
|}.

(** * Properties *)

(** ** The clock *)

Lemma Qltb_lt (x y : Q) : Qltb x y = true ↔ (x < y)%Q.
Proof.
  unfold Qltb. rewrite negb_true_iff, <- not_true_iff_false, Qle_bool_iff.
  split; [apply Qnot_le_lt | apply Qlt_not_le].
Qed.

Lemma Qltb_ge (x y : Q) : Qltb x y = false ↔ (y <= x)%Q.
Proof.
  unfold Qltb. rewrite negb_false_iff. apply Qle_bool_iff.
Qed.

(** On non-negative values [int] rounds down. *)
Lemma int_floor (x : Q) : (0 <= x)%Q → int x = Qfloor x.
Proof.
  destruct x as [n d]. unfold Qle, int, Qfloor. simpl. intros Hn.
  apply Z.quot_div_nonneg; lia.
Qed.

Lemma please_wait_reply (w : Q) : please_wait w = wait_reply (int w).
Proof. reflexivity. Qed.

(** ** Running the monad *)

Ltac unfold_m :=
  unfold mbind, mret, M_bind, M_ret, try_except, finally, bind, ret, raise,
    emit, get, modify, logger_info, logger_warning, logger_error,
    reply_text, reply_html, tor in *.

(** ** Identity rotation *)

Ltac rotate_cases cfg ctl pc :=
  unfold update_identity;
  destruct pc as [?c|];
  [destruct (Str.truthy _ && bool_decide (_ ∈ VALID_COUNTRIES cfg)) |];
  destruct ctl as [[?e|] [?e|] [?e|] [?e|]]; unfold_m; simpl.

Lemma update_identity_store cfg ctl pc s :
  store (update_identity cfg ctl pc s) = s.
Proof. rotate_cases cfg ctl pc; reflexivity. Qed.

Lemma update_identity_quiet cfg ctl pc s :
  user_visible (emitted (update_identity cfg ctl pc s)) = [] ∧
  replies (emitted (update_identity cfg ctl pc s)) = [] ∧
  job_runs (emitted (update_identity cfg ctl pc s)) = 0%nat.
Proof. rotate_cases cfg ctl pc; repeat split; reflexivity. Qed.

Lemma update_identity_rotations cfg ctl pc s :
  rotations (emitted (update_identity cfg ctl pc s)) = 1%nat.
Proof. rotate_cases cfg ctl pc; reflexivity. Qed.

Lemma update_identity_healthy cfg ctl pc s :
  healthy ctl → res (update_identity cfg ctl pc s) = Val tt.
Proof.
  intros (H1 & H2 & H3 & H4). rotate_cases cfg ctl pc;
    simpl in *; try discriminate; reflexivity.
Qed.

Lemma update_identity_raised cfg ctl pc s e :
  res (update_identity cfg ctl pc s) = Raised e →
  faults ctl e ∧
  Log ERROR ("Error while updating Tor identity: " +:+ exn_str e)
    ∈ emitted (update_identity cfg ctl pc s).
Proof.
  unfold faults. rotate_cases cfg ctl pc; intros H; try discriminate;
    injection H as <-; (split; [tauto | set_solver]).
Qed.

(** Whatever the controller does, the outcome of a rotation is the
    store it started from, a trace with no reply in it, and either a
    normal return or an exception of the controller. *)
Lemma update_identity_outcome cfg ctl pc s :
  ∃ r out,
    update_identity cfg ctl pc s = {| res := r; store := s; emitted := out |} ∧
    replies out = [] ∧ user_visible out = [] ∧ rotations out = 1%nat ∧
    job_runs out = 0%nat.
Proof.
  exists (res (update_identity cfg ctl pc s)),
         (emitted (update_identity cfg ctl pc s)).
  pose proof (update_identity_store cfg ctl pc s) as Hs.
  destruct (update_identity_quiet cfg ctl pc s) as (Hq & Hr & Hj).
  pose proof (update_identity_rotations cfg ctl pc s) as Hn.
  destruct (update_identity cfg ctl pc s) as [r s' out]. simpl in *.
  subst s'. auto 6.
Qed.

Lemma update_identity_res_indep cfg ctl pc s pc' s' :
  res (update_identity cfg ctl pc s) = res (update_identity cfg ctl pc' s').
Proof.
  unfold update_identity.
  destruct pc as [?c|]; [destruct (Str.truthy _ && bool_decide (_ ∈ VALID_COUNTRIES cfg)) |];
  (destruct pc' as [?c|]; [destruct (Str.truthy _ && bool_decide (_ ∈ VALID_COUNTRIES cfg)) |]);
  destruct ctl as [[?e|] [?e|] [?e|] [?e|]]; unfold_m; reflexivity.
Qed.

(** A rotation that raised, as a handler sees it. *)
Lemma update_identity_failed cfg ctl pc s e pc0 s0 :
  res (update_identity cfg ctl pc0 s0) = Raised e →
  ∃ out,
    update_identity cfg ctl pc s = {| res := Raised e; store := s; emitted := out |} ∧
    replies out = [] ∧ user_visible out = [] ∧ rotations out = 1%nat.
Proof.
  intros He. rewrite (update_identity_res_indep cfg ctl pc0 s0 pc s) in He.
  destruct (update_identity_outcome cfg ctl pc s) as (r & out & Heq & H).
  rewrite Heq in He. simpl in He. subst r. exists out. tauto.
Qed.

Lemma replies_app (a b : list event) : replies (a ++ b) = replies a ++ replies b.
Proof. apply omap_app. Qed.

Lemma user_visible_app (a b : list event) :
  user_visible (a ++ b) = user_visible a ++ user_visible b.
Proof. apply List.filter_app. Qed.

Lemma rotations_app (a b : list event) :
  rotations (a ++ b) = (rotations a + rotations b)%nat.
Proof. unfold rotations, tor_cmds. by rewrite !omap_app, length_app. Qed.

Lemma job_runs_app (a b : list event) :
  job_runs (a ++ b) = (job_runs a + job_runs b)%nat.
Proof. unfold job_runs. by rewrite !omap_app, length_app. Qed.

Lemma authenticated_test (s : Store) (u : Z) :
  u ∈ dom (authenticated_users s) →
  bool_decide (u ∈ dom (authenticated_users s)) = true.
Proof. apply bool_decide_eq_true_2. Qed.


(** ** Failure of the rotation call *)

Ltac gate Hb Ha :=
  unfold_m; rewrite Hb; rewrite (authenticated_test _ _ Ha); simpl.

(** C1, as the handlers behave.  When the rotation call raises [e]:
    [/update] and [/reset] return normally, leave [user_last_update]
    (and [authenticated_users]) as they were, log the error and send
    the caller exactly one reply, the handler's fixed failure text; the
    inline-query handler returns normally with the store untouched and
    logs the error, and sends the caller nothing.  Whether the call
    raises is decided by the controller alone, whatever the country
    and the store ([update_identity_res_indep]). *)
Theorem rotation_failure_is_caught (cfg : Config) (env : Env) (upd : Update)
    (s : Store) (e : exn) :
  let u := effective_user_id upd in
  is_blocked u = false →
  res (update_identity cfg (controller env) None s) = Raised e →
  (u ∈ dom (authenticated_users s) →
   (RATE_LIMIT <= time env - default 0%Q (user_last_update s !! u))%Q →
   (let o := update_command cfg env upd s in
    res o = Val tt ∧ store o = s ∧
    replies (emitted o) = ["An error occurred while updating your identity."] ∧
    Log ERROR ("Error in update command: " +:+ exn_str e) ∈ emitted o) ∧
   (let o := reset_command cfg env upd s in
    res o = Val tt ∧
    user_last_update (store o) = user_last_update s ∧
    authenticated_users (store o) = authenticated_users s ∧
    replies (emitted o) = ["An error occurred while resetting your preferences."] ∧
    Log ERROR ("Error in reset command: " +:+ exn_str e) ∈ emitted o)) ∧
  (Str.truthy (inline_query_query upd) = true →
   let o := inline_query_handler cfg env upd s in
   res o = Val tt ∧ store o = s ∧
   user_visible (emitted o) = [] ∧
   Log ERROR ("Error in inline query handler: " +:+ exn_str e) ∈ emitted o).
Proof.
  intros u Hb He. split; [intros Ha Hr; apply Qltb_ge in Hr; split |].
  - unfold update_command. fold u. gate Hb Ha. rewrite Hr.
    destruct (update_identity_failed cfg (controller env)
                (user_preferences s !! u) s e _ _ He)
      as (out & -> & Hrep & _).
    simpl. rewrite replies_app, Hrep. repeat split; try reflexivity.
    set_solver.
  - unfold reset_command. fold u. gate Hb Ha. rewrite Hr.
    destruct (bool_decide (u ∈ dom (user_preferences s))); simpl.
    + match goal with |- context [update_identity cfg ?c None ?s'] =>
        destruct (update_identity_failed cfg c None s' e _ _ He)
          as (out & -> & Hrep & _) end.
      simpl. rewrite replies_app, Hrep. repeat split; try reflexivity.
      set_solver.
    + destruct (update_identity_failed cfg (controller env) None s e _ _ He)
        as (out & -> & Hrep & _).
      simpl. rewrite replies_app, Hrep. repeat split; try reflexivity.
      set_solver.
  - intros Hq. unfold inline_query_handler. rewrite Hq. simpl.
    fold u. unfold_m. rewrite Hb.
    destruct (update_identity_failed cfg (controller env) None s e _ _ He)
      as (out & -> & _ & Hvis & _).
    simpl. rewrite user_visible_app, Hvis. repeat split; try reflexivity.
    set_solver.
Qed.

Lemma rotation_failure_is_caught_witness :
  let env := sample_env (inject_Z 2000) unreachable_controller in
  let upd := sample_update [] in
  (let o := update_command sample_config env upd sample_store in
   res o = Val tt ∧ store o = sample_store ∧
   replies (emitted o) = ["An error occurred while updating your identity."]) ∧
  (let o := inline_query_handler sample_config env upd sample_store in
   res o = Val tt ∧ store o = sample_store ∧ user_visible (emitted o) = []).
Proof.
  pose proof (rotation_failure_is_caught sample_config
                (sample_env (inject_Z 2000) unreachable_controller)
                (sample_update []) sample_store refused
                eq_refl eq_refl) as [Hcmd Hinline].
  split.
  - destruct Hcmd as [(H1 & H2 & H3 & _) _].
    + apply elem_of_dom. exists true. reflexivity.
    + vm_compute. discriminate.
    + auto.
  - destruct (Hinline eq_refl) as (H1 & H2 & H3 & _). auto.
Defined.

(** C1 fails as stated for the inline-query rotation: with no control
    port listening the rotation raises, and the handler sends the
    caller nothing at all, no failure notice either. *)
Lemma inline_rotation_failure_unanswered :
  let env := sample_env (inject_Z 2000) unreachable_controller in
  let upd := sample_update [] in
  is_blocked (effective_user_id upd) = false ∧
  res (update_identity sample_config (controller env) None sample_store)
    = Raised refused ∧
  user_visible (emitted (inline_query_handler sample_config env upd sample_store))
    = [] ∧
  replies (emitted (inline_query_handler sample_config env upd sample_store))
    = [].
Proof. vm_compute. auto. Qed.

(** C9.  A [/reset] that passes the gate deletes the caller's country
    preference before it attempts the rotation; when the rotation
    raises, the handler replies with its failure text and the
    preference stays deleted, the rest of the store being as it was. *)
Theorem failed_reset_loses_preference (cfg : Config) (env : Env)
    (upd : Update) (s : Store) (c : string) (e : exn) :
  let u := effective_user_id upd in
  is_blocked u = false →
  u ∈ dom (authenticated_users s) →
  (RATE_LIMIT <= time env - default 0%Q (user_last_update s !! u))%Q →
  user_preferences s !! u = Some c →
  res (update_identity cfg (controller env) None s) = Raised e →
  let o := reset_command cfg env upd s in
  res o = Val tt ∧
  user_preferences (store o) !! u = None ∧
  user_preferences (store o) = delete u (user_preferences s) ∧
  user_last_update (store o) = user_last_update s ∧
  authenticated_users (store o) = authenticated_users s ∧
  replies (emitted o) = ["An error occurred while resetting your preferences."].
Proof.
  intros u Hb Ha Hr Hc He. apply Qltb_ge in Hr.
  unfold reset_command. fold u. gate Hb Ha. rewrite Hr.
  rewrite bool_decide_eq_true_2 by (apply elem_of_dom; eauto). simpl.
  match goal with |- context [update_identity cfg ?ctl None ?s'] =>
    destruct (update_identity_failed cfg ctl None s' e _ _ He)
      as (out & -> & Hrep & _) end.
  simpl. rewrite replies_app, Hrep, lookup_delete_eq. repeat split; reflexivity.
Qed.

Lemma failed_reset_loses_preference_witness :
  let o := reset_command sample_config
             (sample_env (inject_Z 2000) unreachable_controller)
             (sample_update []) sample_store in
  user_preferences sample_store !! 42 = Some "JP" ∧
  user_preferences (store o) !! 42 = None ∧
  replies (emitted o) = ["An error occurred while resetting your preferences."].
Proof.
  assert (Hgate : (RATE_LIMIT <= inject_Z 2000 -
            default 0%Q (user_last_update sample_store !! 42%Z))%Q)
    by (vm_compute; discriminate 1).
  assert (Hauth : 42 ∈ dom (authenticated_users sample_store))
    by (apply elem_of_dom; exists true; reflexivity).
  destruct (failed_reset_loses_preference sample_config
              (sample_env (inject_Z 2000) unreachable_controller)
              (sample_update []) sample_store "JP" refused
              eq_refl Hauth Hgate eq_refl eq_refl)
    as (_ & Hgone & _ & _ & _ & Hreply).
  split; [reflexivity | split; assumption].
Defined.

(** ** The country argument of a rotation *)

Lemma restricts_false cfg pc :
  pc = None ∨ (∃ c, pc = Some c ∧ Str.upper c ∉ VALID_COUNTRIES cfg) →
  restricts cfg pc = false.
Proof.
  intros [-> | (c & -> & Hc)]; [reflexivity |]. simpl.
  rewrite bool_decide_eq_false_2 by assumption. apply andb_false_r.
Qed.

(** The controller calls of a rotation that does not restrict the exit
    nodes, as far as the controller lets it get. *)
Lemma unrestricted_cmds cfg ctl pc s :
  restricts cfg pc = false →
  tor_cmds (emitted (update_identity cfg ctl pc s)) =
    FromPort (TOR_CONTROL_PORT cfg) ::
    match from_port_raises ctl with
    | Some _ => []
    | None =>
        Authenticate (TOR_CONTROL_PASSWORD cfg) ::
        match authenticate_raises ctl with
        | Some _ => [Close]
        | None =>
            SetOptions "" "0" ::
            match set_options_raises ctl with
            | Some _ => [Close]
            | None => [SignalNEWNYM; Close]
            end
        end
    end.
Proof.
  unfold restricts, update_identity. intros Hpc.
  destruct pc as [c|]; [rewrite Hpc |];
    destruct ctl as [[?e|] [?e|] [?e|] [?e|]]; unfold_m; reflexivity.
Qed.

(** C10.  Called with no country, or with one whose upper-case form is
    not in [VALID_COUNTRIES], [update_identity] never restricts the
    exit nodes: the only options it ever sets are ExitNodes '' and
    StrictNodes '0', it sets them as soon as the controller is
    connected and authenticated, and it goes on to send NEWNYM when
    they are set.  With a healthy controller it returns normally after
    exactly that command sequence; an exception it raises is one the
    controller raised, never a rejection of the country. *)
Theorem invalid_country_rotates_unrestricted (cfg : Config) (ctl : Controller)
    (preferred_country : option string) (s : Store) :
  preferred_country = None ∨
    (∃ c, preferred_country = Some c ∧ Str.upper c ∉ VALID_COUNTRIES cfg) →
  let o := update_identity cfg ctl preferred_country s in
  (∀ exit_nodes strict, SetOptions exit_nodes strict ∈ tor_cmds (emitted o) →
     exit_nodes = "" ∧ strict = "0") ∧
  (from_port_raises ctl = None → authenticate_raises ctl = None →
     SetOptions "" "0" ∈ tor_cmds (emitted o)) ∧
  (from_port_raises ctl = None → authenticate_raises ctl = None →
   set_options_raises ctl = None →
     SignalNEWNYM ∈ tor_cmds (emitted o)) ∧
  (healthy ctl →
     res o = Val tt ∧
     tor_cmds (emitted o) =
       [FromPort (TOR_CONTROL_PORT cfg); Authenticate (TOR_CONTROL_PASSWORD cfg);
        SetOptions "" "0"; SignalNEWNYM; Close]) ∧
  (∀ e, res o = Raised e → faults ctl e).
Proof.
  intros Hpc. apply restricts_false in Hpc.
  pose proof (unrestricted_cmds cfg ctl preferred_country s Hpc) as Hcmds.
  cbv zeta. rewrite Hcmds. unfold healthy.
  split; [| split; [| split; [| split]]].
  - intros exit_nodes strict.
    destruct (from_port_raises ctl), (authenticate_raises ctl),
      (set_options_raises ctl); simpl;
      rewrite ?elem_of_cons, elem_of_nil; intros Hin;
      repeat (destruct Hin as [Hin | Hin]; try discriminate Hin);
      try contradiction; injection Hin as -> ->; auto.
  - intros -> ->. destruct (set_options_raises ctl); simpl;
      rewrite !elem_of_cons; auto.
  - intros -> -> ->. simpl. rewrite !elem_of_cons. auto 6.
  - intros (H1 & H2 & H3 & H4). split.
    + apply update_identity_healthy. unfold healthy. auto.
    + rewrite H1, H2, H3. reflexivity.
  - intros e He. apply (update_identity_raised cfg ctl _ s e He).
Qed.

Lemma invalid_country_rotates_unrestricted_witness :
  let o := update_identity sample_config healthy_controller (Some "zz")
             sample_store in
  (Str.upper "zz" ∉ VALID_COUNTRIES sample_config) ∧
  res o = Val tt ∧
  tor_cmds (emitted o) =
    [FromPort 9051; Authenticate "YOUR_PASSWORD_MUST_BE_HERE";
     SetOptions "" "0"; SignalNEWNYM; Close].
Proof.
  assert (Hzz : Str.upper "zz" ∉ VALID_COUNTRIES sample_config)
    by (refine (bool_decide_eq_false_1 _ _); vm_compute; reflexivity).
  destruct (invalid_country_rotates_unrestricted sample_config
              healthy_controller (Some "zz") sample_store
              (or_intror (ex_intro _ "zz" (conj eq_refl Hzz))))
    as (_ & _ & _ & Hok & _).
  destruct Hok as [Hres Hcmds]; [repeat split |].
  split; [exact Hzz | split; assumption].
Defined.

(** ** The gate *)

Lemma main_registers cfg initial_interval app log :
  main cfg initial_interval = (Some app, log) →
  map callback_of (handlers app) = command_handlers ∧
  error_handlers app = [error_handler].
Proof.
  unfold main. destruct (TELEGRAM_BOT_TOKEN cfg) as [[|]|];
    intros H; inversion H; split; reflexivity.
Qed.

Lemma in_command_handlers (P : (Config -> Env -> Update -> M unit) → Prop) :
  P start_command → P help_command → P auth_command → P update_command →
  P set_country_command → P reset_command → P countries_command →
  P inline_query_handler →
  ∀ h, h ∈ command_handlers → P h.
Proof.
  intros ? ? ? ? ? ? ? ? h Hh. unfold command_handlers in Hh.
  repeat (apply elem_of_cons in Hh as [-> | Hh]; [assumption |]).
  by apply elem_of_nil in Hh.
Qed.

(** C2.  For a blocked user every registered handler returns normally
    with the three dictionaries as they were, issues no Tor command,
    and emits the same events whatever the dictionaries hold: it has
    returned before it looks at any of them. *)
Theorem blocked_user_short_circuits (cfg : Config) (env : Env) (upd : Update)
    (h : Config -> Env -> Update -> M unit) :
  h ∈ command_handlers →
  is_blocked (effective_user_id upd) = true →
  ∀ s s' : Store,
    res (h cfg env upd s) = Val tt ∧
    store (h cfg env upd s) = s ∧
    tor_cmds (emitted (h cfg env upd s)) = [] ∧
    emitted (h cfg env upd s) = emitted (h cfg env upd s').
Proof.
  intros Hh. revert h Hh.
  apply (in_command_handlers (fun h => _ → ∀ s s', _));
    intros Hb s s'.
  - unfold start_command. unfold_m. rewrite Hb.
    destruct (easter_egg_exists env); repeat split; reflexivity.
  - unfold help_command. unfold_m. rewrite Hb. repeat split; reflexivity.
  - unfold auth_command. unfold_m. rewrite Hb. repeat split; reflexivity.
  - unfold update_command. unfold_m. rewrite Hb. repeat split; reflexivity.
  - unfold set_country_command. unfold_m. rewrite Hb. repeat split; reflexivity.
  - unfold reset_command. unfold_m. rewrite Hb. repeat split; reflexivity.
  - unfold countries_command. unfold_m. rewrite Hb. repeat split; reflexivity.
  - unfold inline_query_handler.
    destruct (Str.truthy (inline_query_query upd)); simpl;
      [unfold_m; rewrite Hb |]; repeat split; reflexivity.
Qed.

Lemma blocked_user_short_circuits_witness :
  let upd := {| effective_user_id := 987654321;
                effective_user_first_name := "Bob";
                args := ["AUTHENTICATE_PASSWORD_MUST_BE_HERE"];
                inline_query_id := "8"; inline_query_query := "new" |} in
  let env := sample_env (inject_Z 2000) healthy_controller in
  store (auth_command sample_config env upd sample_store) = sample_store ∧
  store (reset_command sample_config env upd sample_store) = sample_store ∧
  tor_cmds (emitted (inline_query_handler sample_config env upd sample_store)) = [].
Proof.
  intros upd env.
  pose proof (fun h Hh =>
    blocked_user_short_circuits sample_config env upd h Hh eq_refl
      sample_store empty_store) as H.
  split; [| split].
  - apply (H auth_command). unfold command_handlers. repeat constructor.
  - apply (H reset_command). unfold command_handlers. repeat constructor.
  - apply (H inline_query_handler). unfold command_handlers. repeat constructor.
Defined.

(** The branches of [/auth] for a user who is not blocked. *)
Lemma auth_command_already cfg env upd s :
  is_blocked (effective_user_id upd) = false →
  effective_user_id upd ∈ dom (authenticated_users s) →
  auth_command cfg env upd s =
    {| res := Val tt; store := s;
       emitted := [ReplyText "You are already authenticated." None;
                   Log INFO ("User " +:+ who upd +:+
                             " attempted to re-authenticate.")] |}.
Proof.
  intros Hb Ha. unfold auth_command. unfold_m. rewrite Hb.
  by rewrite (authenticated_test _ _ Ha).
Qed.

Lemma auth_command_fresh cfg env upd s pw :
  is_blocked (effective_user_id upd) = false →
  effective_user_id upd ∉ dom (authenticated_users s) →
  args upd = [pw] →
  auth_command cfg env upd s =
    if bool_decide (Str.strip pw = Str.strip (AUTH_PASSWORD cfg)) then
      {| res := Val tt;
         store := {| authenticated_users :=
                       <[effective_user_id upd := true]> (authenticated_users s);
                     user_preferences := user_preferences s;
                     user_last_update := user_last_update s |};
         emitted := [ReplyText "Authentication successful! Now you can use commands." None;
                     Log INFO ("User " +:+ who upd +:+
                               " authenticated successfully.")] |}
    else
      {| res := Val tt; store := s;
         emitted := [ReplyText "Incorrect password. Please try again." None;
                     Log WARNING ("User " +:+ who upd +:+
                                  " failed authentication.")] |}.
Proof.
  intros Hb Ha Hargs. unfold auth_command. unfold_m. rewrite Hb, Hargs.
  rewrite bool_decide_eq_false_2 by assumption.
  by destruct (bool_decide (Str.strip pw = _)).
Qed.

(** C3.  [/auth] of a user who is not blocked and not yet
    authenticated: with one argument that equals the configured
    password once both are stripped, the reply is the success text and
    the user is entered with value [True], nothing else changing; from
    then on any [/auth] of that user, whatever its arguments and
    however many, gets the already-authenticated reply and changes
    nothing.  With one argument that differs, the reply is the
    wrong-password text and the store is as it was. *)
Theorem auth_then_already_authenticated (cfg : Config) (env env2 : Env)
    (upd upd2 : Update) (pw : string) (s : Store) :
  let u := effective_user_id upd in
  is_blocked u = false →
  u ∉ dom (authenticated_users s) →
  args upd = [pw] →
  effective_user_id upd2 = u →
  let o := auth_command cfg env upd s in
  (Str.strip pw = Str.strip (AUTH_PASSWORD cfg) →
     res o = Val tt ∧
     replies (emitted o) = ["Authentication successful! Now you can use commands."] ∧
     store o = {| authenticated_users := <[u := true]> (authenticated_users s);
                  user_preferences := user_preferences s;
                  user_last_update := user_last_update s |} ∧
     let o2 := auth_command cfg env2 upd2 (store o) in
     res o2 = Val tt ∧
     replies (emitted o2) = ["You are already authenticated."] ∧
     store o2 = store o) ∧
  (Str.strip pw ≠ Str.strip (AUTH_PASSWORD cfg) →
     res o = Val tt ∧
     replies (emitted o) = ["Incorrect password. Please try again."] ∧
     store o = s).
Proof.
  intros u Hb Hnew Hargs Hu2. cbv zeta.
  rewrite (auth_command_fresh cfg env upd s pw Hb Hnew Hargs). fold u.
  split; intros Hpw.
  - rewrite bool_decide_eq_true_2 by assumption. simpl.
    rewrite auth_command_already.
    + repeat split; reflexivity.
    + by rewrite Hu2.
    + rewrite Hu2. simpl. rewrite dom_insert_L.
      apply elem_of_union_l, elem_of_singleton. reflexivity.
  - rewrite bool_decide_eq_false_2 by assumption.
    repeat split; reflexivity.
Qed.

Lemma auth_then_already_authenticated_witness :
  let env := sample_env (inject_Z 2000) healthy_controller in
  let o := auth_command sample_config env
             (sample_update [" AUTHENTICATE_PASSWORD_MUST_BE_HERE"]) empty_store in
  replies (emitted o) = ["Authentication successful! Now you can use commands."] ∧
  replies (emitted (auth_command sample_config env
                      (sample_update ["guess"; "again"]) (store o)))
    = ["You are already authenticated."] ∧
  replies (emitted (auth_command sample_config env
                      (sample_update ["guess"]) empty_store))
    = ["Incorrect password. Please try again."].
Proof.
  intros env.
  assert (Hnew : 42 ∉ dom (authenticated_users empty_store))
    by (simpl; rewrite dom_empty_L; apply not_elem_of_empty).
  destruct (auth_then_already_authenticated sample_config env env
              (sample_update [" AUTHENTICATE_PASSWORD_MUST_BE_HERE"])
              (sample_update ["guess"; "again"])
              " AUTHENTICATE_PASSWORD_MUST_BE_HERE" empty_store
              eq_refl Hnew eq_refl eq_refl) as [Hgood _].
  destruct (auth_then_already_authenticated sample_config env env
              (sample_update ["guess"]) (sample_update [])
              "guess" empty_store eq_refl Hnew eq_refl eq_refl) as [_ Hbad].
  destruct (Hgood eq_refl) as (_ & H1 & _ & _ & H2 & _).
  destruct Hbad as (_ & H3 & _); [vm_compute; discriminate |].
  auto.
Defined.

(** ** Country preferences *)

(** The branches of [/setcountry] for an authenticated user. *)
Lemma set_country_command_usage cfg env upd s :
  is_blocked (effective_user_id upd) = false →
  effective_user_id upd ∈ dom (authenticated_users s) →
  length (args upd) ≠ 1%nat →
  set_country_command cfg env upd s =
    {| res := Val tt; store := s;
       emitted := [ReplyText "Usage: /setcountry <country_code>" None;
                   Log WARNING ("User " +:+ who upd +:+
                                " used incorrect /setcountry command format.")] |}.
Proof.
  intros Hb Ha Hlen. unfold set_country_command. gate Hb Ha.
  destruct (args upd) as [|arg [|arg' rest]]; simpl in *; congruence.
Qed.

Lemma set_country_command_code cfg env upd s code :
  is_blocked (effective_user_id upd) = false →
  effective_user_id upd ∈ dom (authenticated_users s) →
  args upd = [code] →
  set_country_command cfg env upd s =
    if bool_decide (Str.upper code ∈ VALID_COUNTRIES cfg) then
      {| res := Val tt;
         store := {| authenticated_users := authenticated_users s;
                     user_preferences :=
                       <[effective_user_id upd := Str.upper code]>
                         (user_preferences s);
                     user_last_update := user_last_update s |};
         emitted := [ReplyText ("Preferred country set to: " +:+ Str.upper code) None;
                     Log INFO ("User " +:+ who upd +:+
                               " set preferred country to " +:+
                               Str.upper code +:+ ".")] |}
    else
      {| res := Val tt; store := s;
         emitted := [ReplyText "Invalid country code. Please use a two letter ISO code of country (e.g., US, JP, KR)." None;
                     Log WARNING ("User " +:+ who upd +:+
                                  " provided invalid country code: " +:+
                                  Str.upper code +:+ ".")] |}.
Proof.
  intros Hb Ha Hargs. unfold set_country_command. gate Hb Ha. rewrite Hargs.
  by destruct (bool_decide (Str.upper code ∈ VALID_COUNTRIES cfg)).
Qed.

(** C6.  [/setcountry] of an authenticated user who is not blocked:
    with an argument count other than one the reply is the usage text
    and nothing changes; with one argument [code], when its upper-case
    form is not an allowed country the reply is the invalid-code text
    and the store is as it was, and otherwise the user's preference
    becomes the upper-case form, replacing any earlier one, nothing
    else changing. *)
Theorem set_country_validates (cfg : Config) (env : Env) (upd : Update)
    (s : Store) :
  let u := effective_user_id upd in
  is_blocked u = false →
  u ∈ dom (authenticated_users s) →
  let o := set_country_command cfg env upd s in
  (length (args upd) ≠ 1%nat →
     res o = Val tt ∧ store o = s ∧
     replies (emitted o) = ["Usage: /setcountry <country_code>"]) ∧
  (∀ code, args upd = [code] →
     (Str.upper code ∉ VALID_COUNTRIES cfg →
        res o = Val tt ∧ store o = s ∧
        replies (emitted o) =
          ["Invalid country code. Please use a two letter ISO code of country (e.g., US, JP, KR)."]) ∧
     (Str.upper code ∈ VALID_COUNTRIES cfg →
        res o = Val tt ∧
        store o = {| authenticated_users := authenticated_users s;
                     user_preferences :=
                       <[u := Str.upper code]> (user_preferences s);
                     user_last_update := user_last_update s |} ∧
        user_preferences (store o) !! u = Some (Str.upper code) ∧
        replies (emitted o) = ["Preferred country set to: " +:+ Str.upper code])).
Proof.
  intros u Hb Ha. cbv zeta. split.
  - intros Hlen. rewrite set_country_command_usage by assumption.
    repeat split; reflexivity.
  - intros code Hargs.
    rewrite (set_country_command_code cfg env upd s code Hb Ha Hargs). fold u.
    split; intros Hcode.
    + rewrite bool_decide_eq_false_2 by assumption. repeat split; reflexivity.
    + rewrite bool_decide_eq_true_2 by assumption. simpl.
      rewrite lookup_insert_eq. repeat split; reflexivity.
Qed.

Lemma set_country_validates_witness :
  let env := sample_env (inject_Z 2000) healthy_controller in
  (let o := set_country_command sample_config env (sample_update ["zz"])
              sample_store in
   store o = sample_store ∧
   replies (emitted o) =
     ["Invalid country code. Please use a two letter ISO code of country (e.g., US, JP, KR)."]) ∧
  (let o := set_country_command sample_config env (sample_update ["kr"])
              sample_store in
   user_preferences (store o) !! 42 = Some "KR" ∧
   replies (emitted o) = ["Preferred country set to: KR"]).
Proof.
  intros env.
  assert (Hauth : 42 ∈ dom (authenticated_users sample_store))
    by (apply elem_of_dom; exists true; reflexivity).
  split.
  - destruct (set_country_validates sample_config env (sample_update ["zz"])
                sample_store eq_refl Hauth) as [_ Hone].
    destruct (Hone "zz" eq_refl) as [Hbad _].
    destruct Hbad as (_ & Hs & Hr); [| split; assumption].
    refine (bool_decide_eq_false_1 _ _). vm_compute. reflexivity.
  - destruct (set_country_validates sample_config env (sample_update ["kr"])
                sample_store eq_refl Hauth) as [_ Hone].
    destruct (Hone "kr" eq_refl) as [_ Hgood].
    destruct Hgood as (_ & _ & Hp & Hr); [| split; assumption].
    refine (bool_decide_eq_true_1 _ _). vm_compute. reflexivity.
Defined.

(** Running a handler branch by branch. *)
Ltac crunch :=
  repeat first
    [ progress simpl
    | match goal with
      | |- context [update_identity ?cfg ?ctl ?pc ?s] =>
          let r := fresh "r" in
          let out := fresh "out" in
          let H := fresh "H" in
          destruct (update_identity_outcome cfg ctl pc s)
            as (r & out & H & _ & _ & _ & ?);
          rewrite H; clear H; destruct r as [[]|?]
      | |- context [match args ?u with _ => _ end] =>
          destruct (args u) as [|? [|? ?]]
      | |- context [if ?b then _ else _] => destruct b eqn:?
      end ].

Lemma job_runs_cons (e : event) (tr : list event) :
  job_runs (e :: tr) =
    (match e with JobStarted _ => 1 | _ => 0 end + job_runs tr)%nat.
Proof. by destruct e. Qed.

Ltac footprint :=
  unfold_m; crunch;
  repeat split; try reflexivity;
  try (rewrite ?job_runs_cons, ?job_runs_app;
       repeat match goal with H : job_runs _ = _ |- _ => rewrite H end;
       reflexivity);
  try (left; reflexivity).

(** What every registered handler does, whoever calls it: it returns
    normally, it starts no job, and it leaves the preference
    dictionary in one of the three ways of [prefs_written]. *)
Lemma handler_footprint cfg env upd s h :
  h ∈ command_handlers →
  res (h cfg env upd s) = Val tt ∧
  job_runs (emitted (h cfg env upd s)) = 0%nat ∧
  prefs_written cfg (effective_user_id upd)
    (user_preferences s) (user_preferences (store (h cfg env upd s))).
Proof.
  intros Hh. revert h Hh. unfold prefs_written.
  apply (in_command_handlers (fun h => _ ∧ _ ∧ _)).
  - unfold start_command. footprint.
  - unfold help_command. footprint.
  - unfold auth_command. footprint.
  - unfold update_command. footprint.
  - unfold set_country_command. footprint.
    right. right. eexists. split; [| reflexivity].
    match goal with H : negb (bool_decide _) = false |- _ =>
      apply negb_false_iff, bool_decide_eq_true_1 in H; exact H end.
  - unfold reset_command. footprint; right; left; reflexivity.
  - unfold countries_command. footprint.
  - unfold inline_query_handler. footprint.
Qed.

Lemma prefs_written_valid cfg u before after :
  prefs_written cfg u before after →
  (∀ v c, before !! v = Some c → c ∈ VALID_COUNTRIES cfg) →
  ∀ v c, after !! v = Some c → c ∈ VALID_COUNTRIES cfg.
Proof.
  intros [-> | [-> | (c' & Hc' & ->)]] Hinv v c Hv.
  - eauto.
  - apply lookup_delete_Some in Hv as [_ Hv]. eauto.
  - apply lookup_insert_Some in Hv as [[_ <-] | [_ Hv]]; eauto.
Qed.

Lemma tor_identity_update_job_footprint cfg env s :
  res (tor_identity_update_job cfg env s) = Val tt ∧
  store (tor_identity_update_job cfg env s) = s ∧
  job_runs (emitted (tor_identity_update_job cfg env s)) = 0%nat ∧
  rotations (emitted (tor_identity_update_job cfg env s)) = 1%nat.
Proof.
  unfold tor_identity_update_job. unfold_m.
  destruct (update_identity_outcome cfg (controller env) None s)
    as (r & out & -> & _ & _ & Hrot & Hjob).
  destruct r as [[]|e]; simpl; rewrite job_runs_app, rotations_app, Hrot, Hjob;
    repeat split; reflexivity.
Qed.


(** ** The polling loop *)

Lemma main_as_built cfg initial_interval app log :
  main cfg initial_interval = (Some app, log) →
  as_built app ∧ length (job_queue app) = 1%nat ∧ job_runs log = 0%nat.
Proof.
  unfold main. destruct (TELEGRAM_BOT_TOKEN cfg) as [[|]|];
    intros H; inversion H; subst; clear H;
    (split; [split; [| split] | split; reflexivity]); simpl;
    try reflexivity; intros x Hx;
    repeat (apply elem_of_cons in Hx as [-> | Hx];
            [first [reflexivity | simpl; unfold command_handlers; repeat constructor] |]);
    by apply elem_of_nil in Hx.
Qed.

Lemma find_handler_registered hs inc callback :
  find_handler hs inc = Some callback →
  ∃ h, h ∈ hs ∧ callback_of h = callback.
Proof.
  induction hs as [|h hs IH]; [discriminate |]. simpl.
  destruct h as [command cb | cb], inc as [c env upd | env upd | t env];
    try (intros H; destruct (IH H) as (h & Hh & Hcb);
         exists h; split; [by apply list_elem_of_further | exact Hcb]).
  - destruct (bool_decide (c = command)).
    + intros [= <-]. eexists. split; [apply list_elem_of_here | reflexivity].
    + intros H. destruct (IH H) as (h & Hh & Hcb).
      exists h. split; [by apply list_elem_of_further | exact Hcb].
  - intros [= <-]. eexists. split; [apply list_elem_of_here | reflexivity].
Qed.

(** A callback that returns normally never reaches the error handlers. *)
Lemma guarded_returned app has_message (m : M unit) s :
  res (m s) = Val tt → guarded app has_message m s = m s.
Proof.
  unfold guarded, try_except. destruct (m s) as [r s1 out1]. simpl.
  by intros ->.
Qed.

(** A timer tick runs the due jobs and nothing else: the store is as
    it was, and as many jobs started as were due. *)
Lemma run_due_footprint app cfg env t jobs s :
  (∀ j, j ∈ jobs → job_callback j = tor_identity_update_job) →
  store (run_due app cfg env t jobs s) = s ∧
  (job_runs (emitted (run_due app cfg env t jobs s))
   + length (filter (fun j => ¬ (when j <= t)%Z) jobs) = length jobs)%nat.
Proof.
  induction jobs as [|j jobs IH]; intros Hjobs; [split; reflexivity |].
  destruct IH as [IHs IHn];
    [intros j' Hj'; apply Hjobs; by apply list_elem_of_further |].
  pose proof (Hjobs j (list_elem_of_here _ _)) as Hcb.
  simpl. rewrite filter_cons. unfold_m.
  destruct (decide (when j <= t)) as [Hdue | Hlater].
  - rewrite bool_decide_eq_true_2 by assumption.
    rewrite decide_False by tauto.
    destruct (tor_identity_update_job_footprint cfg env s)
      as (Hres & Hstore & Hjob & _).
    rewrite Hcb.
    pose proof (guarded_returned app false
                  (tor_identity_update_job cfg env) s Hres) as Hg.
    rewrite Hg.
    destruct (tor_identity_update_job cfg env s) as [r s1 out1].
    simpl in *. subst r s1.
    destruct (run_due app cfg env t jobs s) as [r2 s2 out2]. simpl in *.
    split; [assumption |].
    change (S (job_runs (out1 ++ out2) +
               length (filter (fun j0 => ¬ (when j0 <= t)%Z) jobs))
            = S (length jobs))%nat.
    rewrite job_runs_app, Hjob. simpl. lia.
  - rewrite bool_decide_eq_false_2 by assumption.
    rewrite decide_True by tauto. simpl.
    destruct (run_due app cfg env t jobs s) as [r2 s2 out2]. simpl in *.
    split; [assumption | lia].
Qed.

(** One turn of the loop keeps the application as built and the
    preferences allowed, and every job it starts leaves the queue. *)
Lemma process_invariant cfg inc p :
  as_built (application p) →
  prefs_valid cfg (globals p) →
  let p' := process cfg inc p in
  as_built (application p') ∧
  prefs_valid cfg (globals p') ∧
  (job_runs (trace p') + length (job_queue (application p'))
   = job_runs (trace p) + length (job_queue (application p)))%nat.
Proof.
  intros (Hhs & Herr & Hjobs) Hinv.
  assert (Hupdate : ∀ env upd has_message,
    let o := match find_handler (handlers (application p)) inc with
             | Some callback =>
                 guarded (application p) has_message
                   (callback cfg env upd) (globals p)
             | None => ret tt (globals p)
             end in
    prefs_valid cfg (store o) ∧ job_runs (emitted o) = 0%nat).
  { intros env upd has_message.
    destruct (find_handler (handlers (application p)) inc) as [cb|] eqn:Hfind;
      [| split; [exact Hinv | reflexivity]].
    apply find_handler_registered in Hfind as (h & Hh & <-).
    destruct (handler_footprint cfg env upd (globals p) (callback_of h)
                (Hhs h Hh)) as (Hres & Hjob & Hw).
    cbv zeta. rewrite guarded_returned by assumption.
    split; [exact (prefs_written_valid _ _ _ _ Hw Hinv) | exact Hjob]. }
  destruct inc as [c env upd | env upd | t env]; cbv zeta; simpl.
  - destruct (Hupdate env upd true) as [Hp Hj].
    repeat split; try assumption. rewrite job_runs_app, Hj. lia.
  - destruct (Hupdate env upd false) as [Hp Hj].
    repeat split; try assumption. rewrite job_runs_app, Hj. lia.
  - destruct (run_due_footprint (application p) cfg env t
                (job_queue (application p)) (globals p) Hjobs) as [Hs Hn].
    rewrite Hs. repeat split; try assumption.
    + intros j Hj. apply Hjobs. by apply list_elem_of_filter in Hj as [_ Hj].
    + rewrite job_runs_app. lia.
Qed.

Lemma run_polling_invariant cfg incoming p :
  as_built (application p) →
  prefs_valid cfg (globals p) →
  let p' := run_polling cfg incoming p in
  as_built (application p') ∧
  prefs_valid cfg (globals p') ∧
  (job_runs (trace p') + length (job_queue (application p'))
   = job_runs (trace p) + length (job_queue (application p)))%nat.
Proof.
  unfold run_polling. revert p.
  induction incoming as [|inc incoming IH]; intros p Happ Hinv; simpl.
  - auto.
  - destruct (process_invariant cfg inc p Happ Hinv) as (Happ' & Hinv' & Hn).
    destruct (IH (process cfg inc p) Happ' Hinv') as (Happ'' & Hinv'' & Hn').
    split; [exact Happ'' | split; [exact Hinv'' |]].
    rewrite Hn'. exact Hn.
Qed.

Lemma empty_store_valid cfg : prefs_valid cfg empty_store.
Proof. intros u c Hc. simpl in Hc. by rewrite lookup_empty in Hc. Qed.

Lemma torbot_invariant cfg initial_interval incoming :
  prefs_valid cfg (snd (torbot cfg initial_interval incoming)) ∧
  (job_runs (fst (torbot cfg initial_interval incoming)) <= 1)%nat.
Proof.
  unfold torbot.
  destruct (main cfg initial_interval) as [[app|] log] eqn:Hmain; simpl.
  - destruct (main_as_built _ _ _ _ Hmain) as (Happ & Hlen & Hlog).
    destruct (run_polling_invariant cfg incoming
                {| application := app; globals := empty_store; trace := log |}
                Happ (empty_store_valid cfg)) as (_ & Hinv & Hn).
    simpl in Hn. split; [exact Hinv | lia].
  - split; [apply empty_store_valid |].
    unfold main in Hmain.
    destruct (TELEGRAM_BOT_TOKEN cfg) as [[|]|]; inversion Hmain; subst;
      unfold job_runs; simpl; lia.
Qed.

(** C7.  Every stored preference is an allowed country: this holds of
    the empty dictionaries the process starts with, every registered
    handler carries it from the store it is given to the store it
    leaves, the rotation job leaves the store as it is, and so it
    holds of the store after any sequence of updates and timer ticks.
    The handlers other than [/setcountry] and [/reset] leave the
    preferences as they are, [/reset] at most removes the caller's
    entry. *)
Theorem preferences_stay_allowed (cfg : Config) :
  prefs_valid cfg empty_store ∧
  (∀ h env upd s, h ∈ command_handlers →
     prefs_valid cfg s → prefs_valid cfg (store (h cfg env upd s))) ∧
  (∀ env s, store (tor_identity_update_job cfg env s) = s) ∧
  (∀ h env upd s,
     h ∈ [start_command; help_command; auth_command; update_command;
          countries_command; inline_query_handler] →
     user_preferences (store (h cfg env upd s)) = user_preferences s) ∧
  (∀ env upd s,
     user_preferences (store (reset_command cfg env upd s)) = user_preferences s ∨
     user_preferences (store (reset_command cfg env upd s))
       = delete (effective_user_id upd) (user_preferences s)) ∧
  (∀ initial_interval incoming,
     prefs_valid cfg (snd (torbot cfg initial_interval incoming))).
Proof.
  split; [| split; [| split; [| split; [| split]]]];
    [| | | | | intros i incoming; apply torbot_invariant].
  - apply empty_store_valid.
  - intros h env upd s Hh Hinv.
    destruct (handler_footprint cfg env upd s h Hh) as (_ & _ & Hw).
    exact (prefs_written_valid _ _ _ _ Hw Hinv).
  - intros env s.
    by destruct (tor_identity_update_job_footprint cfg env s) as (_ & -> & _).
  - intros h env upd s Hh.
    repeat (apply elem_of_cons in Hh as [-> | Hh]);
      [| | | | | | by apply elem_of_nil in Hh].
    + unfold start_command. unfold_m. crunch; reflexivity.
    + unfold help_command. unfold_m. crunch; reflexivity.
    + unfold auth_command. unfold_m. crunch; reflexivity.
    + unfold update_command. unfold_m. crunch; reflexivity.
    + unfold countries_command. unfold_m. crunch; reflexivity.
    + unfold inline_query_handler. unfold_m. crunch; reflexivity.
  - intros env upd s. unfold reset_command. unfold_m. crunch; auto.
Qed.

Lemma preferences_stay_allowed_witness :
  prefs_valid sample_config
    (store (set_country_command sample_config
              (sample_env (inject_Z 2000) healthy_controller)
              (sample_update ["kr"]) empty_store)) ∧
  user_preferences
    (store (update_command sample_config
              (sample_env (inject_Z 2000) healthy_controller)
              (sample_update []) sample_store))
    = user_preferences sample_store.
Proof.
  destruct (preferences_stay_allowed sample_config)
    as (Hinit & Hstep & _ & Hframe & _ & _).
  split.
  - apply Hstep; [unfold command_handlers; repeat constructor | exact Hinit].
  - apply Hframe. repeat constructor.
Defined.

(** ** The scheduler *)

(** C8 (what the code does instead).  [main] puts the rotation job in
    the queue with [run_once] and nothing ever queues it again, so
    over any run of the process, whatever arrives and however long it
    lasts, the job queue starts the job at most once.  With the job
    due after 2700 s and the timer firing at 2700 s, 5400 s and
    8100 s, the one rotation of the run is the one at 2700 s. *)
Theorem scheduled_rotation_runs_once :
  (∀ cfg initial_interval incoming,
     (job_runs (fst (torbot cfg initial_interval incoming)) <= 1)%nat) ∧
  (let env := sample_env (inject_Z 0) healthy_controller in
   let tr := fst (torbot sample_config 2700
                    [Timer 2700 env; Timer 5400 env; Timer 8100 env]) in
   job_runs tr = 1%nat ∧ rotations tr = 1%nat).
Proof.
  split.
  - intros cfg initial_interval incoming. apply torbot_invariant.
  - vm_compute. split; reflexivity.
Qed.

(** ** The rate limit *)

(** The two outcomes of the rate-limit check in [/update], for an
    authenticated user who is not blocked. *)
Lemma update_command_limited cfg env upd s :
  let u := effective_user_id upd in
  let elapsed := (time env - default 0%Q (user_last_update s !! u))%Q in
  is_blocked u = false →
  u ∈ dom (authenticated_users s) →
  (elapsed < RATE_LIMIT)%Q →
  update_command cfg env upd s =
    {| res := Val tt; store := s;
       emitted := [ReplyText (please_wait (RATE_LIMIT - elapsed)) None;
                   Log INFO ("User " +:+ who upd +:+
                             " is rate limited for /update.")] |}.
Proof.
  intros u elapsed Hb Ha Hlt. apply Qltb_lt in Hlt.
  unfold update_command. fold u. gate Hb Ha. fold elapsed. by rewrite Hlt.
Qed.

Lemma reset_command_limited cfg env upd s :
  let u := effective_user_id upd in
  let elapsed := (time env - default 0%Q (user_last_update s !! u))%Q in
  is_blocked u = false →
  u ∈ dom (authenticated_users s) →
  (elapsed < RATE_LIMIT)%Q →
  reset_command cfg env upd s =
    {| res := Val tt; store := s;
       emitted := [ReplyText (please_wait (RATE_LIMIT - elapsed)) None;
                   Log INFO ("User " +:+ who upd +:+
                             " is rate limited for /reset.")] |}.
Proof.
  intros u elapsed Hb Ha Hlt. apply Qltb_lt in Hlt.
  unfold reset_command. fold u. gate Hb Ha. fold elapsed. by rewrite Hlt.
Qed.

Lemma update_command_passed cfg env upd s :
  let u := effective_user_id upd in
  let elapsed := (time env - default 0%Q (user_last_update s !! u))%Q in
  is_blocked u = false →
  u ∈ dom (authenticated_users s) →
  (RATE_LIMIT <= elapsed)%Q →
  ∃ r out,
    update_identity cfg (controller env) (user_preferences s !! u) s =
      {| res := r; store := s; emitted := out |} ∧
    replies out = [] ∧ rotations out = 1%nat ∧
    update_command cfg env upd s =
      match r with
      | Val _ =>
          {| res := Val tt;
             store := {| authenticated_users := authenticated_users s;
                         user_preferences := user_preferences s;
                         user_last_update :=
                           <[u := time env]> (user_last_update s) |};
             emitted := out ++
               [ReplyText "Your Tor identity has been updated!" None;
                Log INFO ("User " +:+ who upd +:+
                          " updated their Tor identity.")] |}
      | Raised e =>
          {| res := Val tt; store := s;
             emitted := out ++
               [Log ERROR ("Error in update command: " +:+ exn_str e);
                ReplyText "An error occurred while updating your identity." None] |}
      end.
Proof.
  intros u elapsed Hb Ha Hge. apply Qltb_ge in Hge.
  destruct (update_identity_outcome cfg (controller env)
              (user_preferences s !! u) s)
    as (r & out & Heq & Hrep & _ & Hrot & _).
  exists r, out. repeat split; try assumption.
  unfold update_command. fold u. gate Hb Ha. fold elapsed. rewrite Hge.
  rewrite Heq. by destruct r as [[]|e].
Qed.

Lemma wait_is_rounded_down (elapsed : Q) :
  (elapsed < RATE_LIMIT)%Q →
  please_wait (RATE_LIMIT - elapsed) = wait_reply (Qfloor (RATE_LIMIT - elapsed)).
Proof.
  intros Hlt. rewrite please_wait_reply, int_floor; [reflexivity |].
  unfold RATE_LIMIT in *. lra.
Qed.

Lemma after_100_seconds (now T : Q) :
  (now == T + inject_Z 100)%Q →
  (now - T < RATE_LIMIT)%Q ∧ (RATE_LIMIT - (now - T) == inject_Z 200)%Q.
Proof.
  intros H. rewrite H. change RATE_LIMIT with (300 # 1)%Q.
  unfold inject_Z. split; lra.
Qed.

Lemma after_300_seconds (now T : Q) :
  (now == T + inject_Z 300)%Q → (RATE_LIMIT <= now - T)%Q.
Proof.
  intros H. rewrite H. change RATE_LIMIT with (300 # 1)%Q.
  unfold inject_Z. lra.
Qed.

(** C4.  The rate-limit check of [/update] (and of [/reset], which
    repeats it) for an authenticated user who is not blocked, with
    [RATE_LIMIT] = 300 and elapsed = now - last update, the last
    update being 0 when the user has no entry.  When elapsed is under
    300 the handler only replies that the caller must wait
    [RATE_LIMIT - elapsed] seconds rounded down and leaves the store
    as it is, rotating nothing; otherwise the check passes and the
    handler goes on to rotate, its reply then being the success or the
    failure text.  With the last update at [T], at [T + 100] the reply
    asks to wait 200 seconds and at [T + 300] the check passes. *)
Theorem rate_limit_check (cfg : Config) (env : Env) (upd : Update) (s : Store) :
  let u := effective_user_id upd in
  let elapsed := (time env - default 0%Q (user_last_update s !! u))%Q in
  is_blocked u = false →
  u ∈ dom (authenticated_users s) →
  RATE_LIMIT = inject_Z 300 ∧
  ((elapsed < RATE_LIMIT)%Q →
     update_command cfg env upd s =
       {| res := Val tt; store := s;
          emitted := [ReplyText (wait_reply (Qfloor (RATE_LIMIT - elapsed))) None;
                      Log INFO ("User " +:+ who upd +:+
                                " is rate limited for /update.")] |} ∧
     reset_command cfg env upd s =
       {| res := Val tt; store := s;
          emitted := [ReplyText (wait_reply (Qfloor (RATE_LIMIT - elapsed))) None;
                      Log INFO ("User " +:+ who upd +:+
                                " is rate limited for /reset.")] |}) ∧
  ((RATE_LIMIT <= elapsed)%Q →
     let o := update_command cfg env upd s in
     rotations (emitted o) = 1%nat ∧
     (replies (emitted o) = ["Your Tor identity has been updated!"] ∨
      replies (emitted o) = ["An error occurred while updating your identity."])) ∧
  (∀ T : Q, user_last_update s !! u = Some T →
     ((time env == T + inject_Z 100)%Q →
        replies (emitted (update_command cfg env upd s))
          = ["Please wait 200 seconds before the next update."] ∧
        store (update_command cfg env upd s) = s) ∧
     ((time env == T + inject_Z 300)%Q →
        rotations (emitted (update_command cfg env upd s)) = 1%nat)).
Proof.
  intros u elapsed Hb Ha.
  split; [reflexivity |]. split; [| split].
  - intros Hlt.
    rewrite (update_command_limited cfg env upd s Hb Ha Hlt).
    rewrite (reset_command_limited cfg env upd s Hb Ha Hlt).
    fold u elapsed. rewrite (wait_is_rounded_down elapsed Hlt). split; reflexivity.
  - intros Hge.
    destruct (update_command_passed cfg env upd s Hb Ha Hge)
      as (r & out & _ & Hrep & Hrot & ->).
    cbv zeta. destruct r as [[]|e]; simpl;
      rewrite rotations_app, replies_app, Hrot, Hrep; auto.
  - intros T HT.
    assert (Helapsed : elapsed = (time env - T)%Q)
      by (unfold elapsed; rewrite HT; reflexivity).
    split; intros Hnow.
    + destruct (after_100_seconds (time env) T Hnow) as [Hlt Hwait].
      rewrite <- Helapsed in Hlt, Hwait.
      rewrite (update_command_limited cfg env upd s Hb Ha Hlt).
      fold u elapsed. rewrite (wait_is_rounded_down elapsed Hlt).
      rewrite (Qfloor_comp _ _ Hwait), Qfloor_Z. split; reflexivity.
    + pose proof (after_300_seconds (time env) T Hnow) as Hge.
      rewrite <- Helapsed in Hge.
      destruct (update_command_passed cfg env upd s Hb Ha Hge)
        as (r & out & _ & _ & Hrot & ->).
      destruct r as [[]|e]; simpl; rewrite rotations_app, Hrot; reflexivity.
Qed.

Lemma rate_limit_check_witness :
  let s := sample_store in
  replies (emitted (update_command sample_config
                      (sample_env (inject_Z 1100) healthy_controller)
                      (sample_update []) s))
    = ["Please wait 200 seconds before the next update."] ∧
  rotations (emitted (update_command sample_config
                        (sample_env (inject_Z 1300) healthy_controller)
                        (sample_update []) s)) = 1%nat.
Proof.
  assert (Hauth : 42 ∈ dom (authenticated_users sample_store))
    by (apply elem_of_dom; exists true; reflexivity).
  split.
  - destruct (rate_limit_check sample_config
                (sample_env (inject_Z 1100) healthy_controller)
                (sample_update []) sample_store eq_refl Hauth)
      as (_ & _ & _ & Hat).
    destruct (Hat (inject_Z 1000) eq_refl) as [H100 _].
    apply H100. reflexivity.
  - destruct (rate_limit_check sample_config
                (sample_env (inject_Z 1300) healthy_controller)
                (sample_update []) sample_store eq_refl Hauth)
      as (_ & _ & _ & Hat).
    destruct (Hat (inject_Z 1000) eq_refl) as [_ H300].
    apply H300. reflexivity.
Defined.

(** The controller calls of a restricted rotation that goes through. *)
Lemma restricted_cmds cfg ctl c s :
  healthy ctl →
  Str.truthy c = true →
  Str.upper c ∈ VALID_COUNTRIES cfg →
  tor_cmds (emitted (update_identity cfg ctl (Some c) s)) =
    [FromPort (TOR_CONTROL_PORT cfg); Authenticate (TOR_CONTROL_PASSWORD cfg);
     SetOptions ("{" +:+ Str.upper c +:+ "}") "1"; SignalNEWNYM; Close].
Proof.
  intros (H1 & H2 & H3 & H4) Hc Hvalid. unfold update_identity.
  rewrite Hc, bool_decide_eq_true_2 by assumption.
  destruct ctl as [f a o g]. simpl in *. subst. unfold_m. reflexivity.
Qed.

Lemma upper_truthy (c : string) : Str.truthy (Str.upper c) = Str.truthy c.
Proof. by destruct c. Qed.

Lemma upper_upper_char (a : ascii) :
  Str.upper_char (Str.upper_char a) = Str.upper_char a.
Proof.
  destruct a as [[] [] [] [] [] [] [] []]; reflexivity.
Qed.

Lemma upper_idempotent (c : string) : Str.upper (Str.upper c) = Str.upper c.
Proof.
  induction c as [|a c IH]; [reflexivity |].
  simpl. by rewrite upper_upper_char, IH.
Qed.

Lemma valid_country_truthy cfg c :
  c ∈ VALID_COUNTRIES cfg → Str.truthy c = true.
Proof.
  unfold VALID_COUNTRIES. rewrite elem_of_list_to_set, list_elem_of_fmap.
  intros (country & -> & Hin).
  apply list_elem_of_filter in Hin as [Hnonempty _].
  rewrite upper_truthy. by apply Is_true_eq_true.
Qed.

Lemma Qfloor_positive (w : Q) : (0 < Qfloor w)%Z ↔ (inject_Z 1 <= w)%Q.
Proof.
  split.
  - intros Hn. apply Qle_trans with (inject_Z (Qfloor w)); [| apply Qfloor_le].
    rewrite <- Zle_Qle. lia.
  - intros Hw. apply Qfloor_resp_le in Hw. rewrite Qfloor_Z in Hw. lia.
Qed.

Lemma wait_at_least_one (elapsed : Q) :
  (inject_Z 1 <= RATE_LIMIT - elapsed)%Q ↔ (elapsed <= inject_Z 299)%Q.
Proof.
  change RATE_LIMIT with (300 # 1)%Q. unfold inject_Z. split; intros; lra.
Qed.

Lemma wait_not_negative (elapsed : Q) :
  (elapsed < RATE_LIMIT)%Q → (0 <= Qfloor (RATE_LIMIT - elapsed))%Z.
Proof.
  intros Hlt.
  assert (Hwait : (inject_Z 0 <= RATE_LIMIT - elapsed)%Q)
    by (revert Hlt; change RATE_LIMIT with (300 # 1)%Q; unfold inject_Z;
        intros; lra).
  apply Qfloor_resp_le in Hwait. by rewrite Qfloor_Z in Hwait.
Qed.

(** C5, as the handlers behave.  An authenticated user who is not
    blocked sets an allowed country and sends [/update] twice.  When
    the first [/update] passes the rate limiter and its rotation goes
    through, and the second comes less than [RATE_LIMIT] seconds
    later, the second reply asks to wait [n] whole seconds, [n] being
    [RATE_LIMIT] minus the time between the two rounded down: it is
    never negative, and it is positive exactly when the two are at
    most 299 seconds apart.  The rotation client is invoked exactly
    once over the three commands, restricted to the chosen country. *)
Theorem second_update_must_wait (cfg : Config) (env0 env1 env2 : Env)
    (upd0 upd : Update) (code : string) (s : Store) :
  let u := effective_user_id upd in
  is_blocked u = false →
  u ∈ dom (authenticated_users s) →
  effective_user_id upd0 = u →
  args upd0 = [code] →
  Str.upper code ∈ VALID_COUNTRIES cfg →
  (RATE_LIMIT <= time env1 - default 0%Q (user_last_update s !! u))%Q →
  healthy (controller env1) →
  (time env2 - time env1 < RATE_LIMIT)%Q →
  let o0 := set_country_command cfg env0 upd0 s in
  let o1 := update_command cfg env1 upd (store o0) in
  let o2 := update_command cfg env2 upd (store o1) in
  let n := Qfloor (RATE_LIMIT - (time env2 - time env1)) in
  replies (emitted o1) = ["Your Tor identity has been updated!"] ∧
  replies (emitted o2) = [wait_reply n] ∧
  (0 <= n)%Z ∧
  ((0 < n)%Z ↔ (time env2 - time env1 <= inject_Z 299)%Q) ∧
  rotations (emitted o0 ++ emitted o1 ++ emitted o2) = 1%nat ∧
  SetOptions ("{" +:+ Str.upper code +:+ "}") "1" ∈ tor_cmds (emitted o1).
Proof.
  intros u Hb Ha Hu0 Hargs Hvalid Hpass Hhealthy Hwindow.
  assert (Hb0 : is_blocked (effective_user_id upd0) = false) by by rewrite Hu0.
  assert (Ha0 : effective_user_id upd0 ∈ dom (authenticated_users s))
    by by rewrite Hu0.
  cbv zeta.
  rewrite (set_country_command_code cfg env0 upd0 s code Hb0 Ha0 Hargs).
  rewrite bool_decide_eq_true_2 by assumption. rewrite Hu0. fold u.
  set (s0 := {| authenticated_users := authenticated_users s;
                user_preferences := <[u := Str.upper code]> (user_preferences s);
                user_last_update := user_last_update s |}).
  cbn [store emitted].
  destruct (update_command_passed cfg env1 upd s0 Hb Ha Hpass)
    as (r & out & Heq & Hrep & Hrot & Hupd). fold u in Heq, Hupd.
  assert (Hpref : user_preferences s0 !! u = Some (Str.upper code))
    by apply lookup_insert_eq.
  rewrite Hpref in Heq.
  pose proof (update_identity_healthy cfg (controller env1)
                (Some (Str.upper code)) s0 Hhealthy) as Hres.
  assert (Hcmds : tor_cmds out =
            [FromPort (TOR_CONTROL_PORT cfg);
             Authenticate (TOR_CONTROL_PASSWORD cfg);
             SetOptions ("{" +:+ Str.upper code +:+ "}") "1";
             SignalNEWNYM; Close]).
  { pose proof (restricted_cmds cfg (controller env1) (Str.upper code) s0
                  Hhealthy (valid_country_truthy _ _ Hvalid)) as Hcmds.
    rewrite upper_idempotent, Heq in Hcmds. by apply Hcmds. }
  rewrite Heq in Hres. simpl in Hres. subst r. rewrite Hupd. clear Hupd.
  set (s1 := {| authenticated_users := authenticated_users s0;
                user_preferences := user_preferences s0;
                user_last_update := <[u := time env1]> (user_last_update s0) |}).
  cbn [store emitted].
  assert (Hlast : user_last_update s1 !! u = Some (time env1))
    by apply lookup_insert_eq.
  assert (Hlimited : (time env2 - default 0%Q (user_last_update s1 !! u)
                      < RATE_LIMIT)%Q)
    by (rewrite Hlast; exact Hwindow).
  rewrite (update_command_limited cfg env2 upd s1 Hb Ha Hlimited). fold u.
  cbn [emitted]. rewrite Hlast. simpl (default _ _).
  rewrite (wait_is_rounded_down _ Hwindow).
  split; [by rewrite replies_app, Hrep |].
  split; [reflexivity |].
  split; [by apply wait_not_negative |].
  split; [| split].
  - rewrite Qfloor_positive. apply wait_at_least_one.
  - rewrite !rotations_app, Hrot. reflexivity.
  - unfold tor_cmds. rewrite omap_app. fold (tor_cmds out).
    rewrite Hcmds. apply elem_of_app. left. repeat constructor.
Qed.

Lemma second_update_must_wait_witness :
  let env := fun now => sample_env (inject_Z now) healthy_controller in
  let s := {| authenticated_users := {[ 42 := true ]};
              user_preferences := ∅; user_last_update := ∅ |} in
  let o0 := set_country_command sample_config (env 1000) (sample_update ["jp"]) s in
  let o1 := update_command sample_config (env 1000) (sample_update []) (store o0) in
  let o2 := update_command sample_config (env 1100) (sample_update []) (store o1) in
  replies (emitted o2) = ["Please wait 200 seconds before the next update."] ∧
  rotations (emitted o0 ++ emitted o1 ++ emitted o2) = 1%nat.
Proof.
  intros env s.
  assert (Hauth : 42 ∈ dom (authenticated_users s))
    by (apply elem_of_dom; exists true; reflexivity).
  assert (Hjp : Str.upper "jp" ∈ VALID_COUNTRIES sample_config)
    by (refine (bool_decide_eq_true_1 _ _); vm_compute; reflexivity).
  assert (Hpass : (RATE_LIMIT <= time (env 1000%Z) -
                     default 0%Q (user_last_update s !! 42%Z))%Q)
    by (vm_compute; discriminate 1).
  assert (Hhealthy : healthy (controller (env 1000)))
    by (repeat split).
  assert (Hwindow : (time (env 1100%Z) - time (env 1000%Z) < RATE_LIMIT)%Q)
    by reflexivity.
  destruct (second_update_must_wait sample_config (env 1000) (env 1000)
              (env 1100) (sample_update ["jp"]) (sample_update []) "jp" s
              eq_refl Hauth eq_refl eq_refl Hjp Hpass Hhealthy Hwindow)
    as (_ & Hreply & _ & _ & Hrot & _).
  split; [exact Hreply | exact Hrot].
Defined.

(** C5 fails as stated on the number of seconds: in the last second of
    the window the reply reports 0 seconds.  The user authenticates,
    sets Japan, rotates at 1000 s and asks again 299.5 s later; the
    rotation client has been invoked once, and the caller is told to
    wait 0 seconds. *)
Lemma second_update_reports_zero_seconds :
  let env := fun now => sample_env now healthy_controller in
  let tr := fst (torbot sample_config 2700
      [Message "auth" (env (inject_Z 1000))
         (sample_update ["AUTHENTICATE_PASSWORD_MUST_BE_HERE"]);
       Message "setcountry" (env (inject_Z 1000)) (sample_update ["jp"]);
       Message "update" (env (inject_Z 1000)) (sample_update []);
       Message "update" (env (2599 # 2)%Q) (sample_update [])]) in
  ((2599 # 2) - inject_Z 1000 < RATE_LIMIT)%Q ∧
  replies tr =
    ["Authentication successful! Now you can use commands.";
     "Preferred country set to: JP";
     "Your Tor identity has been updated!";
     "Please wait 0 seconds before the next update."] ∧
  rotations tr = 1%nat.
Proof. vm_compute. repeat split. Qed.

(** * Further properties of the code *)

(** ** The control-port protocol of a rotation *)

(** The controller calls of a rotation, as far as the controller lets
    it get. *)
Lemma rotation_cmds cfg ctl pc s :
  tor_cmds (emitted (update_identity cfg ctl pc s)) =
    FromPort (TOR_CONTROL_PORT cfg) ::
    match from_port_raises ctl with
    | Some _ => []
    | None =>
        Authenticate (TOR_CONTROL_PASSWORD cfg) ::
        match authenticate_raises ctl with
        | Some _ => [Close]
        | None =>
            SetOptions (exit_nodes cfg pc).1 (exit_nodes cfg pc).2 ::
            match set_options_raises ctl with
            | Some _ => [Close]
            | None => [SignalNEWNYM; Close]
            end
        end
    end.
Proof.
  unfold exit_nodes, restricts, update_identity.
  destruct pc as [c|];
    [destruct (Str.truthy _ && bool_decide (_ ∈ VALID_COUNTRIES cfg)) |];
    destruct ctl as [[?e|] [?e|] [?e|] [?e|]]; unfold_m; reflexivity.
Qed.




(** ** What a handler may change *)

(** Running a handler branch by branch, keeping what each test and
    each rotation gave. *)
Ltac crunch_keep :=
  repeat first
    [ progress simpl
    | match goal with
      | |- context [update_identity ?cfg ?ctl ?pc ?s] =>
          let r := fresh "r" in
          let out := fresh "out" in
          let H := fresh "Hrotation" in
          destruct (update_identity_outcome cfg ctl pc s)
            as (r & out & H & _ & _ & _ & _);
          rewrite H; destruct r as [[]|?]
      | |- context [match args ?u with _ => _ end] =>
          destruct (args u) as [|? [|? ?]]
      | |- context [if ?b then _ else _] => destruct b eqn:?
      end ].

Ltac facts :=
  repeat match goal with
  | H : negb _ = false |- _ => apply negb_false_iff in H
  | H : negb _ = true |- _ => apply negb_true_iff in H
  | H : bool_decide _ = true |- _ => apply bool_decide_eq_true_1 in H
  | H : bool_decide _ = false |- _ => apply bool_decide_eq_false_1 in H
  | H : Qltb _ _ = false |- _ => apply Qltb_ge in H
  | H : Qltb _ _ = true |- _ => apply Qltb_lt in H
  end.

Ltac rotation_returned :=
  match goal with
  | Hok : ?ok = res (update_identity ?cfg ?ctl None ?s),
    H : update_identity ?cfg ?ctl ?pc ?s' = {| res := Val tt; store := _; emitted := _ |}
    |- ?ok = Val tt =>
      rewrite Hok;
      etransitivity; [apply (update_identity_res_indep cfg ctl None s pc s') |];
      rewrite H; reflexivity
  end.

Ltac effect :=
  unfold_m; crunch_keep; facts;
  repeat split;
  first [ left; reflexivity
        | right; left; reflexivity
        | right; repeat split;
          first [reflexivity | assumption | rotation_returned]
        | right; right; eexists; repeat split;
          first [reflexivity | assumption] ].

Lemma handler_effect_aux cfg env upd s h (returned : result unit) :
  returned = res (update_identity cfg (controller env) None s) →
  h ∈ command_handlers →
  let u := effective_user_id upd in
  let o := h cfg env upd s in
  (authenticated_users (store o) = authenticated_users s ∨
   (authenticated_users (store o) = <[u := true]> (authenticated_users s) ∧
    is_blocked u = false ∧ u ∉ dom (authenticated_users s))) ∧
  (user_preferences (store o) = user_preferences s ∨
   user_preferences (store o) = delete u (user_preferences s) ∨
   ∃ c, user_preferences (store o) = <[u := c]> (user_preferences s) ∧
        c ∈ VALID_COUNTRIES cfg ∧ u ∈ dom (authenticated_users s)) ∧
  (user_last_update (store o) = user_last_update s ∨
   (user_last_update (store o) = <[u := time env]> (user_last_update s) ∧
    is_blocked u = false ∧
    u ∈ dom (authenticated_users s) ∧
    (RATE_LIMIT <= time env - default 0%Q (user_last_update s !! u))%Q ∧
    returned = Val tt)).
Proof.
  intros Hreturned Hh. revert h Hh. cbv zeta.
  apply (in_command_handlers (fun h => _ ∧ _ ∧ _)).
  - unfold start_command. effect.
  - unfold help_command. effect.
  - unfold auth_command. effect.
  - unfold update_command. effect.
  - unfold set_country_command. effect.
  - unfold reset_command. effect.
  - unfold countries_command. effect.
  - unfold inline_query_handler. effect.
Qed.

(** What a handler called by user [u] does to each dictionary: it
    leaves it as it was or changes [u]'s entry, and it changes it only
    on the branch that is meant to. *)
Lemma handler_effect cfg env upd s h :
  h ∈ command_handlers →
  let u := effective_user_id upd in
  let o := h cfg env upd s in
  (authenticated_users (store o) = authenticated_users s ∨
   (authenticated_users (store o) = <[u := true]> (authenticated_users s) ∧
    is_blocked u = false ∧ u ∉ dom (authenticated_users s))) ∧
  (user_preferences (store o) = user_preferences s ∨
   user_preferences (store o) = delete u (user_preferences s) ∨
   ∃ c, user_preferences (store o) = <[u := c]> (user_preferences s) ∧
        c ∈ VALID_COUNTRIES cfg ∧ u ∈ dom (authenticated_users s)) ∧
  (user_last_update (store o) = user_last_update s ∨
   (user_last_update (store o) = <[u := time env]> (user_last_update s) ∧
    is_blocked u = false ∧
    u ∈ dom (authenticated_users s) ∧
    (RATE_LIMIT <= time env - default 0%Q (user_last_update s !! u))%Q ∧
    res (update_identity cfg (controller env) None s) = Val tt)).
Proof. exact (handler_effect_aux cfg env upd s h _ eq_refl). Qed.

(** X2.  No handler revokes or alters an authentication: an entry of
    [authenticated_users] stays as it is through every handler, the
    only entry a handler can add is the caller's own, with value
    [True], and only when the caller is not blocked; every handler but
    [/auth] leaves the dictionary as it is. *)
Theorem authentication_is_never_revoked (cfg : Config) (env : Env)
    (upd : Update) (s : Store) (h : Config -> Env -> Update -> M unit) :
  h ∈ command_handlers →
  let u := effective_user_id upd in
  let after := authenticated_users (store (h cfg env upd s)) in
  (∀ v b, authenticated_users s !! v = Some b → after !! v = Some b) ∧
  (∀ v, v ∈ dom after → v ∉ dom (authenticated_users s) →
     v = u ∧ is_blocked u = false ∧ after !! v = Some true) ∧
  (h ∈ [start_command; help_command; update_command; set_country_command;
        reset_command; countries_command; inline_query_handler] →
     after = authenticated_users s).
Proof.
  intros Hh u after.
  destruct (handler_effect cfg env upd s h Hh) as (Ha & _ & _).
  fold u after in Ha. split; [| split].
  - intros v b Hv. destruct Ha as [-> | (-> & _ & Hnew)]; [exact Hv |].
    rewrite lookup_insert_ne; [exact Hv |].
    intros <-. apply Hnew, elem_of_dom. eauto.
  - intros v Hv Hnot. destruct Ha as [Heq | (Heq & Hb & Hnew)].
    + rewrite Heq in Hv. contradiction.
    + rewrite Heq in Hv |- *. rewrite dom_insert_L in Hv.
      apply elem_of_union in Hv as [Hv%elem_of_singleton | Hv];
        [| contradiction].
      subst v. rewrite lookup_insert_eq. auto.
  - clear Ha Hh. intros Hh. subst after.
    repeat (apply elem_of_cons in Hh as [-> | Hh]);
      [| | | | | | | by apply elem_of_nil in Hh].
    + unfold start_command. unfold_m. crunch; reflexivity.
    + unfold help_command. unfold_m. crunch; reflexivity.
    + unfold update_command. unfold_m. crunch; reflexivity.
    + unfold set_country_command. unfold_m. crunch; reflexivity.
    + unfold reset_command. unfold_m. crunch; reflexivity.
    + unfold countries_command. unfold_m. crunch; reflexivity.
    + unfold inline_query_handler. unfold_m. crunch; reflexivity.
Qed.

Lemma authentication_is_never_revoked_witness :
  authenticated_users
    (store (reset_command sample_config
              (sample_env (inject_Z 2000) unreachable_controller)
              (sample_update []) sample_store)) !! 42 = Some true.
Proof.
  destruct (authentication_is_never_revoked sample_config
              (sample_env (inject_Z 2000) unreachable_controller)
              (sample_update []) sample_store reset_command)
    as (Hkept & _ & _).
  - unfold command_handlers. repeat constructor.
  - apply Hkept. reflexivity.
Defined.

(** X3.  A timestamp is written only after a rotation that returned:
    whatever handler runs, [user_last_update] is left as it was unless
    the caller is not blocked, is authenticated, has passed the rate
    limiter and the rotation returned normally, and then only the
    caller's entry is set, to the clock value read at the start of the
    handler.  The handlers other than [/update] and [/reset] never
    write it, a rotation through the inline query included. *)
Theorem timestamp_only_after_rotation (cfg : Config) (env : Env)
    (upd : Update) (s : Store) (h : Config -> Env -> Update -> M unit) :
  h ∈ command_handlers →
  let u := effective_user_id upd in
  let after := user_last_update (store (h cfg env upd s)) in
  (after = user_last_update s ∨
   (after = <[u := time env]> (user_last_update s) ∧
    is_blocked u = false ∧
    u ∈ dom (authenticated_users s) ∧
    (RATE_LIMIT <= time env - default 0%Q (user_last_update s !! u))%Q ∧
    res (update_identity cfg (controller env) None s) = Val tt)) ∧
  (h ∈ [start_command; help_command; auth_command; set_country_command;
        countries_command; inline_query_handler] →
     after = user_last_update s).
Proof.
  intros Hh u after.
  destruct (handler_effect cfg env upd s h Hh) as (_ & _ & Hl).
  split; [exact Hl |]. clear Hl Hh. intros Hh. subst after.
  repeat (apply elem_of_cons in Hh as [-> | Hh]);
    [| | | | | | by apply elem_of_nil in Hh].
  - unfold start_command. unfold_m. crunch; reflexivity.
  - unfold help_command. unfold_m. crunch; reflexivity.
  - unfold auth_command. unfold_m. crunch; reflexivity.
  - unfold set_country_command. unfold_m. crunch; reflexivity.
  - unfold countries_command. unfold_m. crunch; reflexivity.
  - unfold inline_query_handler. unfold_m. crunch; reflexivity.
Qed.

Lemma timestamp_only_after_rotation_witness :
  user_last_update
    (store (inline_query_handler sample_config
              (sample_env (inject_Z 2000) healthy_controller)
              (sample_update []) sample_store))
    = user_last_update sample_store.
Proof.
  destruct (timestamp_only_after_rotation sample_config
              (sample_env (inject_Z 2000) healthy_controller)
              (sample_update []) sample_store inline_query_handler)
    as (_ & Hframe).
  - unfold command_handlers. repeat constructor.
  - apply Hframe. repeat constructor.
Defined.

(** X4.  A handler changes no entry but the caller's: in each of the
    three dictionaries the entry of every other user is after the
    handler what it was before. *)
Theorem handlers_touch_only_the_caller (cfg : Config) (env : Env)
    (upd : Update) (s : Store) (h : Config -> Env -> Update -> M unit)
    (v : Z) :
  h ∈ command_handlers →
  v ≠ effective_user_id upd →
  let o := h cfg env upd s in
  authenticated_users (store o) !! v = authenticated_users s !! v ∧
  user_preferences (store o) !! v = user_preferences s !! v ∧
  user_last_update (store o) !! v = user_last_update s !! v.
Proof.
  intros Hh Hv.
  destruct (handler_effect cfg env upd s h Hh) as (Ha & Hp & Hl).
  cbv zeta. split; [| split].
  - destruct Ha as [-> | (-> & _)]; [reflexivity |].
    by rewrite lookup_insert_ne.
  - destruct Hp as [-> | [-> | (c & -> & _)]]; [reflexivity | |].
    + by rewrite lookup_delete_ne.
    + by rewrite lookup_insert_ne.
  - destruct Hl as [-> | (-> & _)]; [reflexivity |].
    by rewrite lookup_insert_ne.
Qed.

Lemma handlers_touch_only_the_caller_witness :
  let s := {| authenticated_users := {[ 42 := true; 7 := true ]};
              user_preferences := {[ 42 := "JP"; 7 := "KR" ]};
              user_last_update := {[ 7 := inject_Z 5 ]} |} in
  let o := reset_command sample_config
             (sample_env (inject_Z 2000) healthy_controller)
             (sample_update []) s in
  user_preferences (store o) !! 7 = Some "KR" ∧
  user_last_update (store o) !! 7 = Some (inject_Z 5).
Proof.
  intros s.
  destruct (handlers_touch_only_the_caller sample_config
              (sample_env (inject_Z 2000) healthy_controller)
              (sample_update []) s reset_command 7)
    as (_ & Hp & Hl).
  - unfold command_handlers. repeat constructor.
  - discriminate.
  - split; [rewrite Hp | rewrite Hl]; reflexivity.
Defined.

(** ** The authentication gate *)

(** X5.  A user who is not blocked and not authenticated gets the
    fixed not-authenticated reply from each of [/update],
    [/setcountry], [/reset] and [/countries], whatever the arguments,
    the clock and the controller: the store is left as it is and no
    Tor command is issued. *)
Theorem unauthenticated_is_refused (cfg : Config) (env : Env) (upd : Update)
    (s : Store) (h : Config -> Env -> Update -> M unit) :
  h ∈ protected_handlers →
  is_blocked (effective_user_id upd) = false →
  effective_user_id upd ∉ dom (authenticated_users s) →
  let o := h cfg env upd s in
  res o = Val tt ∧ store o = s ∧
  replies (emitted o) = [not_authenticated_text] ∧
  user_visible (emitted o) = [ReplyText not_authenticated_text None] ∧
  tor_cmds (emitted o) = [].
Proof.
  intros Hh Hb Ha.
  assert (Htest : bool_decide
            (effective_user_id upd ∈ dom (authenticated_users s)) = false)
    by by apply bool_decide_eq_false_2.
  unfold protected_handlers in Hh. cbv zeta.
  repeat (apply elem_of_cons in Hh as [-> | Hh]);
    [| | | | by apply elem_of_nil in Hh].
  - unfold update_command. unfold_m. rewrite Hb, Htest.
    repeat split; reflexivity.
  - unfold set_country_command. unfold_m. rewrite Hb, Htest.
    repeat split; reflexivity.
  - unfold reset_command. unfold_m. rewrite Hb, Htest.
    repeat split; reflexivity.
  - unfold countries_command. unfold_m. rewrite Hb, Htest.
    repeat split; reflexivity.
Qed.

Lemma unauthenticated_is_refused_witness :
  let o := update_command sample_config
             (sample_env (inject_Z 2000) healthy_controller)
             (sample_update []) empty_store in
  store o = empty_store ∧
  replies (emitted o) =
    ["You are not authenticated! Please authenticate using /auth <password>."] ∧
  tor_cmds (emitted o) = [].
Proof.
  destruct (unauthenticated_is_refused sample_config
              (sample_env (inject_Z 2000) healthy_controller)
              (sample_update []) empty_store update_command)
    as (_ & Hs & Hr & _ & Ht).
  - unfold protected_handlers. repeat constructor.
  - reflexivity.
  - simpl. rewrite dom_empty_L. apply not_elem_of_empty.
  - auto.
Defined.

(** X6.  [/auth] of a user who is not blocked and not yet
    authenticated, sent with no argument or with more than one: the
    reply is the usage text, no password is compared and the store is
    left as it is. *)
Theorem auth_wrong_argument_count (cfg : Config) (env : Env) (upd : Update)
    (s : Store) :
  is_blocked (effective_user_id upd) = false →
  effective_user_id upd ∉ dom (authenticated_users s) →
  length (args upd) ≠ 1%nat →
  let o := auth_command cfg env upd s in
  res o = Val tt ∧ store o = s ∧
  replies (emitted o) = ["Usage: /auth <password>"].
Proof.
  intros Hb Ha Hlen. unfold auth_command. unfold_m. rewrite Hb.
  rewrite bool_decide_eq_false_2 by assumption.
  destruct (args upd) as [|arg [|arg' rest]]; simpl in *;
    try congruence; repeat split; reflexivity.
Qed.

Lemma auth_wrong_argument_count_witness :
  let o := auth_command sample_config
             (sample_env (inject_Z 2000) healthy_controller)
             (sample_update ["AUTHENTICATE_PASSWORD_MUST_BE_HERE"; "x"])
             empty_store in
  store o = empty_store ∧ replies (emitted o) = ["Usage: /auth <password>"].
Proof.
  destruct (auth_wrong_argument_count sample_config
              (sample_env (inject_Z 2000) healthy_controller)
              (sample_update ["AUTHENTICATE_PASSWORD_MUST_BE_HERE"; "x"])
              empty_store) as (_ & Hs & Hr).
  - reflexivity.
  - simpl. rewrite dom_empty_L. apply not_elem_of_empty.
  - simpl. lia.
  - auto.
Defined.

(** ** Rotations that go through *)

Lemma valid_country_upper cfg c :
  c ∈ VALID_COUNTRIES cfg → Str.upper c = c.
Proof.
  unfold VALID_COUNTRIES. rewrite elem_of_list_to_set, list_elem_of_fmap.
  intros (country & -> & _). apply upper_idempotent.
Qed.

Lemma exit_nodes_valid cfg c :
  c ∈ VALID_COUNTRIES cfg →
  exit_nodes cfg (Some c) = ("{" +:+ c +:+ "}", "1").
Proof.
  intros Hc. unfold exit_nodes, restricts. simpl.
  rewrite (valid_country_truthy cfg c Hc), (valid_country_upper cfg c Hc).
  by rewrite bool_decide_eq_true_2.
Qed.

(** X7.  [/update] that goes through, from a store whose preferences
    are allowed countries (as they are in every reachable store): for
    a caller with stored preference [c] the controller is told to use
    exit nodes [{c}] strictly, for a caller with none the restriction
    is cleared; either way NEWNYM follows, the caller's timestamp
    becomes the clock value, the preference is kept and the reply is
    the success text. *)
Theorem update_uses_stored_preference (cfg : Config) (env : Env)
    (upd : Update) (s : Store) :
  let u := effective_user_id upd in
  is_blocked u = false →
  u ∈ dom (authenticated_users s) →
  (RATE_LIMIT <= time env - default 0%Q (user_last_update s !! u))%Q →
  healthy (controller env) →
  prefs_valid cfg s →
  let o := update_command cfg env upd s in
  res o = Val tt ∧
  store o = {| authenticated_users := authenticated_users s;
               user_preferences := user_preferences s;
               user_last_update := <[u := time env]> (user_last_update s) |} ∧
  replies (emitted o) = ["Your Tor identity has been updated!"] ∧
  tor_cmds (emitted o) =
    [FromPort (TOR_CONTROL_PORT cfg); Authenticate (TOR_CONTROL_PASSWORD cfg);
     match user_preferences s !! u with
     | Some c => SetOptions ("{" +:+ c +:+ "}") "1"
     | None => SetOptions "" "0"
     end;
     SignalNEWNYM; Close].
Proof.
  intros u Hb Ha Hpass Hhealthy Hvalid.
  destruct (update_command_passed cfg env upd s Hb Ha Hpass)
    as (r & out & Heq & Hrep & _ & Hupd). fold u in Heq, Hupd.
  pose proof (update_identity_healthy cfg (controller env)
                (user_preferences s !! u) s Hhealthy) as Hres.
  pose proof (rotation_cmds cfg (controller env)
                (user_preferences s !! u) s) as Hcmds.
  destruct Hhealthy as (Hf & Hau & Hso & _).
  rewrite Hf, Hau, Hso in Hcmds.
  rewrite Heq in Hres, Hcmds. simpl in Hres, Hcmds. subst r.
  cbv zeta. rewrite Hupd. simpl.
  rewrite replies_app, Hrep. unfold tor_cmds. rewrite omap_app.
  fold (tor_cmds out). rewrite Hcmds. simpl.
  repeat split; try reflexivity.
  destruct (user_preferences s !! u) as [c|] eqn:Hc; [| reflexivity].
  by rewrite (exit_nodes_valid cfg c (Hvalid u c Hc)).
Qed.

Lemma update_uses_stored_preference_witness :
  tor_cmds (emitted (update_command sample_config
                       (sample_env (inject_Z 2000) healthy_controller)
                       (sample_update []) sample_store))
    = [FromPort 9051; Authenticate "YOUR_PASSWORD_MUST_BE_HERE";
       SetOptions "{JP}" "1"; SignalNEWNYM; Close].
Proof.
  assert (Hauth : 42 ∈ dom (authenticated_users sample_store))
    by (apply elem_of_dom; exists true; reflexivity).
  assert (Hpass : (RATE_LIMIT <= inject_Z 2000 -
            default 0%Q (user_last_update sample_store !! 42%Z))%Q)
    by (vm_compute; discriminate 1).
  assert (Hvalid : prefs_valid sample_config sample_store).
  { intros v c Hv. simpl in Hv.
    apply lookup_singleton_Some in Hv as [_ <-].
    refine (bool_decide_eq_true_1 _ _). vm_compute. reflexivity. }
  destruct (update_uses_stored_preference sample_config
              (sample_env (inject_Z 2000) healthy_controller)
              (sample_update []) sample_store eq_refl Hauth Hpass
              (conj eq_refl (conj eq_refl (conj eq_refl eq_refl))) Hvalid)
    as (_ & _ & _ & Hcmds).
  exact Hcmds.
Defined.

(** X8.  [/reset] that goes through: the caller's preference is
    removed (nothing happens to it when there was none), the rotation
    clears the exit-node restriction whatever the preference was, the
    caller's timestamp becomes the clock value and the reply is the
    success text. *)
Theorem reset_clears_preference_and_rotates (cfg : Config) (env : Env)
    (upd : Update) (s : Store) :
  let u := effective_user_id upd in
  is_blocked u = false →
  u ∈ dom (authenticated_users s) →
  (RATE_LIMIT <= time env - default 0%Q (user_last_update s !! u))%Q →
  healthy (controller env) →
  let o := reset_command cfg env upd s in
  res o = Val tt ∧
  store o = {| authenticated_users := authenticated_users s;
               user_preferences := delete u (user_preferences s);
               user_last_update := <[u := time env]> (user_last_update s) |} ∧
  user_preferences (store o) !! u = None ∧
  replies (emitted o) =
    ["Your country preferences have been reset and Tor identity updated!"] ∧
  tor_cmds (emitted o) =
    [FromPort (TOR_CONTROL_PORT cfg); Authenticate (TOR_CONTROL_PASSWORD cfg);
     SetOptions "" "0"; SignalNEWNYM; Close].
Proof.
  intros u Hb Ha Hpass Hhealthy. apply Qltb_ge in Hpass.
  unfold reset_command. fold u. gate Hb Ha. rewrite Hpass.
  destruct (bool_decide (u ∈ dom (user_preferences s))) eqn:Hpref; simpl;
    match goal with |- context [update_identity cfg ?ctl None ?s'] =>
      pose proof (update_identity_healthy cfg ctl None s' Hhealthy) as Hres;
      pose proof (rotation_cmds cfg ctl None s') as Hcmds;
      destruct (update_identity_outcome cfg ctl None s')
        as (r & out & Heq & Hrep & _) end;
    destruct Hhealthy as (Hf & Hau & Hso & _);
    rewrite Hf, Hau, Hso in Hcmds;
    rewrite Heq in Hres, Hcmds |- *; simpl in Hres, Hcmds; subst r; simpl;
    rewrite ?replies_app, Hrep; unfold tor_cmds; rewrite ?omap_app;
    fold (tor_cmds out); rewrite Hcmds; simpl; rewrite ?lookup_delete_eq;
    repeat split; try reflexivity.
  - apply bool_decide_eq_false_1 in Hpref.
    f_equal. symmetry. apply delete_id. by apply not_elem_of_dom.
  - apply bool_decide_eq_false_1 in Hpref. by apply not_elem_of_dom.
Qed.

Lemma reset_clears_preference_and_rotates_witness :
  let o := reset_command sample_config
             (sample_env (inject_Z 2000) healthy_controller)
             (sample_update []) sample_store in
  user_preferences (store o) !! 42 = None ∧
  tor_cmds (emitted o) =
    [FromPort 9051; Authenticate "YOUR_PASSWORD_MUST_BE_HERE";
     SetOptions "" "0"; SignalNEWNYM; Close].
Proof.
  assert (Hauth : 42 ∈ dom (authenticated_users sample_store))
    by (apply elem_of_dom; exists true; reflexivity).
  assert (Hpass : (RATE_LIMIT <= inject_Z 2000 -
            default 0%Q (user_last_update sample_store !! 42%Z))%Q)
    by (vm_compute; discriminate 1).
  destruct (reset_clears_preference_and_rotates sample_config
              (sample_env (inject_Z 2000) healthy_controller)
              (sample_update []) sample_store eq_refl Hauth Hpass
              (conj eq_refl (conj eq_refl (conj eq_refl eq_refl))))
    as (_ & _ & Hgone & _ & Hcmds).
  split; assumption.
Defined.

(** ** The inline query *)

(** A rotation called without a country sets no other options than
    the cleared ones. *)
Lemma rotation_without_country_options cfg ctl s nodes strict :
  SetOptions nodes strict ∈ tor_cmds (emitted (update_identity cfg ctl None s)) →
  nodes = "" ∧ strict = "0".
Proof.
  rewrite (unrestricted_cmds cfg ctl None s eq_refl).
  destruct (from_port_raises ctl), (authenticate_raises ctl),
    (set_options_raises ctl); simpl;
    rewrite ?elem_of_cons, elem_of_nil; intros Hin;
    repeat (destruct Hin as [Hin | Hin]; try discriminate Hin);
    try contradiction; injection Hin as -> ->; auto.
Qed.

(** X9.  The inline query asks for nothing but not being blocked.
    With an empty query the handler does nothing at all.  With a
    query, for a caller who is not blocked, whether authenticated or
    not and whatever the timestamps say, it invokes the rotation
    client once, never restricting the exit nodes even when the
    caller has a stored preference, and it leaves the store as it is,
    so no cooldown starts; when the rotation returns the query is
    answered with the one article. *)
Theorem inline_query_is_ungated (cfg : Config) (env : Env) (upd : Update)
    (s : Store) :
  let o := inline_query_handler cfg env upd s in
  (inline_query_query upd = "" → o = {| res := Val tt; store := s; emitted := [] |}) ∧
  (inline_query_query upd ≠ "" →
   is_blocked (effective_user_id upd) = false →
     res o = Val tt ∧ store o = s ∧
     rotations (emitted o) = 1%nat ∧
     (∀ nodes strict, SetOptions nodes strict ∈ tor_cmds (emitted o) →
        nodes = "" ∧ strict = "0") ∧
     (healthy (controller env) →
        user_visible (emitted o) =
          [AnswerInlineQuery (inline_query_id upd)
             [{| id := "1"; title := "Update Tor Identity";
                 input_message_content := "Your Tor identity has been updated!" |}]
             1])).
Proof.
  cbv zeta. split.
  - intros Hq. unfold inline_query_handler. by rewrite Hq.
  - intros Hq Hb.
    assert (Htruthy : Str.truthy (inline_query_query upd) = true)
      by (by destruct (inline_query_query upd)).
    pose proof (rotation_without_country_options cfg (controller env) s)
      as Hopts.
    pose proof (update_identity_healthy cfg (controller env) None s) as Hok.
    unfold inline_query_handler. rewrite Htruthy. simpl. unfold_m. rewrite Hb.
    destruct (update_identity_outcome cfg (controller env) None s)
      as (r & out & Heq & _ & Hvis & Hrot & _).
    rewrite Heq in Hopts, Hok |- *. simpl in Hopts, Hok.
    destruct r as [[]|e]; simpl;
      rewrite rotations_app, user_visible_app, Hrot, Hvis;
      unfold tor_cmds; rewrite omap_app; fold (tor_cmds out); simpl;
      rewrite app_nil_r;
      (split; [reflexivity |]); (split; [reflexivity |]);
      (split; [reflexivity |]); (split; [exact Hopts |]);
      intros Hh; [reflexivity | by specialize (Hok Hh)].
Qed.

Lemma inline_query_is_ungated_witness :
  let o := inline_query_handler sample_config
             (sample_env (inject_Z 1001) healthy_controller)
             (sample_update []) sample_store in
  store o = sample_store ∧ rotations (emitted o) = 1%nat.
Proof.
  destruct (inline_query_is_ungated sample_config
              (sample_env (inject_Z 1001) healthy_controller)
              (sample_update []) sample_store) as (_ & Hquery).
  destruct Hquery as (_ & Hs & Hr & _); [discriminate | reflexivity |].
  split; assumption.
Defined.

(** ** The allowed countries *)

Lemma isspace_upper_char (a : ascii) :
  Str.isspace (Str.upper_char a) = Str.isspace a.
Proof. destruct a as [[] [] [] [] [] [] [] []]; reflexivity. Qed.

Lemma lstrip_upper (s : string) :
  Str.lstrip (Str.upper s) = Str.upper (Str.lstrip s).
Proof.
  induction s as [|a s IH]; [reflexivity |].
  simpl. rewrite isspace_upper_char. by destruct (Str.isspace a).
Qed.

Lemma rstrip_upper (s : string) :
  Str.rstrip (Str.upper s) = Str.upper (Str.rstrip s).
Proof.
  induction s as [|a s IH]; [reflexivity |].
  simpl. rewrite IH, isspace_upper_char.
  destruct (Str.rstrip s); simpl; [by destruct (Str.isspace a) | reflexivity].
Qed.

Lemma rstrip_idempotent (s : string) :
  Str.rstrip (Str.rstrip s) = Str.rstrip s.
Proof.
  induction s as [|a s IH]; [reflexivity |].
  simpl. destruct (Str.rstrip s) as [|b r] eqn:Hr.
  - destruct (Str.isspace a) eqn:Ha; [reflexivity |]. simpl. by rewrite Ha.
  - simpl in *. by rewrite IH.
Qed.

(** Stripping on the right keeps a first character that is no space,
    so it undoes nothing of a strip on the left. *)
Lemma lstrip_rstrip_lstrip (s : string) :
  Str.lstrip (Str.rstrip (Str.lstrip s)) = Str.rstrip (Str.lstrip s).
Proof.
  induction s as [|a s IH]; [reflexivity |].
  simpl. destruct (Str.isspace a) eqn:Ha; [exact IH |].
  simpl. destruct (Str.rstrip s); rewrite ?Ha; simpl; rewrite ?Ha; reflexivity.
Qed.

Lemma strip_idempotent (s : string) : Str.strip (Str.strip s) = Str.strip s.
Proof.
  unfold Str.strip. by rewrite lstrip_rstrip_lstrip, rstrip_idempotent.
Qed.

Lemma strip_upper (s : string) : Str.strip (Str.upper s) = Str.upper (Str.strip s).
Proof. unfold Str.strip. by rewrite lstrip_upper, rstrip_upper. Qed.

(** X10.  [VALID_COUNTRIES] holds the entries of the configured list
    in normal form: a code is allowed exactly when it is the
    upper-cased, stripped form of a comma-separated piece that is not
    blank, so every allowed code is non-empty, upper-case and free of
    surrounding white space, and an entry written in lower case or
    padded with blanks is allowed under its normal form. *)
Theorem valid_countries_are_normalised (cfg : Config) (c : string) :
  (c ∈ VALID_COUNTRIES cfg ↔
     ∃ piece, piece ∈ Str.split "," (ALLOWED_COUNTRIES_ENV cfg) ∧
              Str.strip piece ≠ "" ∧ c = Str.upper (Str.strip piece)) ∧
  (c ∈ VALID_COUNTRIES cfg →
     c ≠ "" ∧ Str.upper c = c ∧ Str.strip c = c).
Proof.
  assert (Hchar : c ∈ VALID_COUNTRIES cfg ↔
     ∃ piece, piece ∈ Str.split "," (ALLOWED_COUNTRIES_ENV cfg) ∧
              Str.strip piece ≠ "" ∧ c = Str.upper (Str.strip piece)).
  { unfold VALID_COUNTRIES. rewrite elem_of_list_to_set, list_elem_of_fmap.
    split.
    - intros (piece & -> & Hin).
      apply list_elem_of_filter in Hin as [Hne Hin].
      exists piece. split; [exact Hin | split; [| reflexivity]].
      intros Hempty. by rewrite Hempty in Hne.
    - intros (piece & Hin & Hne & ->). exists piece. split; [reflexivity |].
      apply list_elem_of_filter. split; [| exact Hin].
      by destruct (Str.strip piece). }
  split; [exact Hchar |].
  intros Hc. split; [| split].
  - intros ->. by pose proof (valid_country_truthy cfg "" Hc).
  - by apply (valid_country_upper cfg).
  - apply Hchar in Hc as (piece & _ & _ & ->).
    by rewrite strip_upper, strip_idempotent.
Qed.

Lemma valid_countries_are_normalised_witness :
  let cfg := {| TELEGRAM_BOT_TOKEN := None; AUTH_PASSWORD := "pw";
                TOR_CONTROL_PASSWORD := "pw"; TOR_CONTROL_PORT := 9051;
                ALLOWED_COUNTRIES_ENV := " de ,, Fr,  " |} in
  "DE" ∈ VALID_COUNTRIES cfg ∧ Str.strip "DE" = "DE".
Proof.
  intros cfg.
  assert (Hde : "DE" ∈ VALID_COUNTRIES cfg).
  { apply (valid_countries_are_normalised cfg "DE").
    exists " de ". split; [repeat constructor | split; [discriminate | reflexivity]]. }
  split; [exact Hde |].
  by apply (valid_countries_are_normalised cfg "DE").
Defined.

(** X11.  [/countries] of an authenticated user who is not blocked:
    sent with any argument it replies with the usage text; sent with
    none it replies with the heading and the allowed codes joined by
    commas, and the codes listed are exactly the allowed ones, each
    once, in ascending order.  The store is left as it is. *)
Theorem countries_lists_the_allowed_codes (cfg : Config) (env : Env)
    (upd : Update) (s : Store) :
  is_blocked (effective_user_id upd) = false →
  effective_user_id upd ∈ dom (authenticated_users s) →
  let o := countries_command cfg env upd s in
  let listing := merge_sort String.le (elements (VALID_COUNTRIES cfg)) in
  res o = Val tt ∧ store o = s ∧ tor_cmds (emitted o) = [] ∧
  (args upd ≠ [] → replies (emitted o) = ["Usage: /countries"]) ∧
  (args upd = [] →
     replies (emitted o) =
       ["Available countries:" +:+ String "010" "" +:+ Str.join ", " listing]) ∧
  StronglySorted String.le listing ∧
  NoDup listing ∧
  (∀ c, c ∈ listing ↔ c ∈ VALID_COUNTRIES cfg).
Proof.
  intros Hb Ha. cbv zeta.
  unfold countries_command. gate Hb Ha.
  destruct (args upd) as [|arg rest]; simpl;
    (split; [reflexivity |]); (split; [reflexivity |]);
    (split; [reflexivity |]);
    (split; [intros Hargs; first [reflexivity | congruence] |]);
    (split; [intros Hargs; first [reflexivity | congruence] |]);
    (split; [apply StronglySorted_merge_sort; apply _ |]);
    (split; [rewrite merge_sort_Permutation; apply NoDup_elements |]);
    intros c; rewrite merge_sort_Permutation; apply elem_of_elements.
Qed.

Lemma countries_lists_the_allowed_codes_witness :
  replies (emitted (countries_command sample_config
                      (sample_env (inject_Z 2000) healthy_controller)
                      (sample_update []) sample_store))
    = ["Available countries:" +:+ String "010" "" +:+
       "AU, BE, CA, CH, DE, DK, EE, FI, IE, IS, JP, KR, LU, NL, NO, NZ, PT, SE, TW, UY"].
Proof.
  assert (Hauth : 42 ∈ dom (authenticated_users sample_store))
    by (apply elem_of_dom; exists true; reflexivity).
  destruct (countries_lists_the_allowed_codes sample_config
              (sample_env (inject_Z 2000) healthy_controller)
              (sample_update []) sample_store eq_refl Hauth)
    as (_ & _ & _ & _ & Hlist & _).
  rewrite (Hlist eq_refl). vm_compute. reflexivity.
Defined.

(** ** The dispatcher *)



(** ** The job queue *)

Lemma filter_due_queue (interval t : Z) (queue : list Job) :
  (∀ j, j ∈ queue → when j = interval) →
  filter (fun j => ¬ (when j <= t)) queue =
    if bool_decide (interval <= t) then [] else queue.
Proof.
  induction queue as [|j queue IH]; intros Hq.
  - by destruct (bool_decide (interval <= t)).
  - rewrite filter_cons, IH
      by (intros j' Hj'; apply Hq; by apply list_elem_of_further).
    rewrite (Hq j (list_elem_of_here _ _)).
    destruct (decide (interval <= t)) as [Hdue | Hlater].
    + rewrite decide_False by tauto. by rewrite bool_decide_eq_true_2.
    + rewrite decide_True by tauto. by rewrite bool_decide_eq_false_2.
Qed.

(** The queue after a run: emptied by the first tick at which the job
    is due, untouched until then. *)
Lemma queue_after_run cfg (interval : Z) incoming p :
  (∀ j, j ∈ job_queue (application p) → when j = interval) →
  job_queue (application (run_polling cfg incoming p)) =
    if existsb (due interval) incoming then []
    else job_queue (application p).
Proof.
  unfold run_polling. revert p.
  induction incoming as [|inc incoming IH]; intros p Hq; [reflexivity |].
  simpl. destruct inc as [c env upd | env upd | t env]; simpl.
  - by rewrite IH.
  - by rewrite IH.
  - rewrite IH; simpl; rewrite (filter_due_queue interval t _ Hq).
    + destruct (bool_decide (interval <= t)); simpl; [| reflexivity].
      by destruct (existsb (due interval) incoming).
    + destruct (bool_decide (interval <= t)); [| exact Hq].
      intros j Hj. by apply elem_of_nil in Hj.
Qed.

(** X13.  When the scheduled rotation runs.  With a token configured,
    the job queue starts the rotation job at the first timer tick that
    comes [initial_interval] seconds or more after start-up, and at no
    other: over a run it has started once if such a tick arrived and
    not at all otherwise, whatever the users send meanwhile.  The job
    itself rotates once without restricting the exit nodes, returns
    normally whether or not the rotation raises, sends nothing to any
    user and leaves the store as it is. *)
Theorem scheduled_job_runs_when_due (cfg : Config) (initial_interval : Z)
    (incoming : list Incoming) :
  is_Some (main cfg initial_interval).1 →
  job_runs (fst (torbot cfg initial_interval incoming)) =
    (if existsb (due initial_interval) incoming then 1 else 0)%nat ∧
  (∀ env s,
     let o := tor_identity_update_job cfg env s in
     res o = Val tt ∧ store o = s ∧
     user_visible (emitted o) = [] ∧
     rotations (emitted o) = 1%nat ∧
     (∀ nodes strict, SetOptions nodes strict ∈ tor_cmds (emitted o) →
        nodes = "" ∧ strict = "0")).
Proof.
  intros [app Hsome]. split.
  - unfold torbot.
    destruct (main cfg initial_interval) as [[app'|] log] eqn:Hmain;
      [| discriminate Hsome].
    destruct (main_as_built _ _ _ _ Hmain) as (Hbuilt & Hlen & Hlog).
    assert (Hqueue : ∀ j, j ∈ job_queue app' → when j = initial_interval).
    { unfold main in Hmain. destruct (TELEGRAM_BOT_TOKEN cfg) as [[|]|];
        inversion Hmain; subst; simpl; intros j Hj;
        (apply elem_of_cons in Hj as [-> | Hj];
         [reflexivity | by apply elem_of_nil in Hj]). }
    set (p := {| application := app'; globals := empty_store; trace := log |}).
    destruct (run_polling_invariant cfg incoming p Hbuilt
                (empty_store_valid cfg)) as (_ & _ & Hcount).
    pose proof (queue_after_run cfg initial_interval incoming p Hqueue) as Hq.
    simpl. simpl in Hcount. rewrite Hq, Hlog, Hlen in Hcount. simpl in Hcount.
    destruct (existsb (due initial_interval) incoming); simpl in Hcount; lia.
  - intros env s. cbv zeta. unfold tor_identity_update_job. unfold_m.
    pose proof (rotation_without_country_options cfg (controller env) s)
      as Hopts.
    destruct (update_identity_outcome cfg (controller env) None s)
      as (r & out & Heq & _ & Hvis & Hrot & _).
    rewrite Heq in Hopts |- *. simpl in Hopts.
    destruct r as [[]|e]; simpl;
      rewrite user_visible_app, rotations_app, Hvis, Hrot;
      unfold tor_cmds; rewrite omap_app; fold (tor_cmds out); simpl;
      rewrite app_nil_r;
      (split; [reflexivity |]); (split; [reflexivity |]);
      (split; [reflexivity |]); (split; [reflexivity |]); exact Hopts.
Qed.

Lemma scheduled_job_runs_when_due_witness :
  let env := sample_env (inject_Z 0) unreachable_controller in
  job_runs (fst (torbot sample_config 4500
                   [Timer 2700 env; Message "help" env (sample_update []);
                    Timer 4499 env])) = 0%nat ∧
  job_runs (fst (torbot sample_config 4500
                   [Timer 2700 env; Timer 4500 env; Timer 9000 env])) = 1%nat.
Proof.
  intros env.
  assert (Hsome : is_Some (main sample_config 4500).1) by (eexists; reflexivity).
  split.
  - by destruct (scheduled_job_runs_when_due sample_config 4500
                   [Timer 2700 env; Message "help" env (sample_update []);
                    Timer 4499 env] Hsome) as [-> _].
  - by destruct (scheduled_job_runs_when_due sample_config 4500
                   [Timer 2700 env; Timer 4500 env; Timer 9000 env] Hsome)
      as [-> _].
Defined.

(** ** Reachable stores *)

Lemma handler_keeps_consistent cfg env upd s h :
  h ∈ command_handlers →
  store_consistent s → store_consistent (store (h cfg env upd s)).
Proof.
  intros Hh (Htrue & Hprefs & Hlast).
  destruct (handler_effect cfg env upd s h Hh) as (Ha & Hp & Hl).
  cbv zeta in Ha, Hp, Hl.
  set (u := effective_user_id upd) in *.
  set (o := h cfg env upd s) in *.
  assert (Hgrow : dom (authenticated_users s) ⊆ dom (authenticated_users (store o))).
  { destruct Ha as [-> | (-> & _)]; [done |].
    rewrite dom_insert_L. apply union_subseteq_r. }
  split; [| split].
  - intros v b Hv. destruct Ha as [Heq | (Heq & _)]; rewrite Heq in Hv.
    + by apply (Htrue v).
    + apply lookup_insert_Some in Hv as [[_ <-] | [_ Hv]];
        [reflexivity | by apply (Htrue v)].
  - destruct Hp as [-> | [-> | (c & -> & _ & Hu)]].
    + by etransitivity.
    + rewrite dom_delete_L. etransitivity; [| exact Hgrow].
      etransitivity; [apply subseteq_difference_l; reflexivity | exact Hprefs].
    + rewrite dom_insert_L. apply union_least; [| by etransitivity].
      apply singleton_subseteq_l. by apply Hgrow.
  - destruct Hl as [-> | (-> & _ & Hu & _)].
    + by etransitivity.
    + rewrite dom_insert_L. apply union_least; [| by etransitivity].
      apply singleton_subseteq_l. by apply Hgrow.
Qed.

Lemma process_keeps_built cfg inc p :
  as_built (application p) → as_built (application (process cfg inc p)).
Proof.
  intros (Hhs & Herr & Hjobs).
  destruct inc as [c env upd | env upd | t env]; simpl;
    repeat split; try assumption.
  intros j Hj. apply Hjobs. by apply list_elem_of_filter in Hj as [_ Hj].
Qed.

(** Whatever every handler carries over, the loop carries over. *)
Lemma run_polling_preserves (P : Store → Prop) cfg incoming p :
  (∀ h env upd s, h ∈ command_handlers → P s → P (store (h cfg env upd s))) →
  as_built (application p) →
  P (globals p) →
  P (globals (run_polling cfg incoming p)).
Proof.
  intros Hstep. unfold run_polling. revert p.
  induction incoming as [|inc incoming IH]; intros p Hbuilt HP; [exact HP |].
  simpl. apply IH; [by apply process_keeps_built |].
  assert (Hupdate : ∀ env upd has_message,
    P (store match find_handler (handlers (application p)) inc with
             | Some callback =>
                 guarded (application p) has_message
                   (callback cfg env upd) (globals p)
             | None => ret tt (globals p)
             end)).
  { intros env upd has_message.
    destruct (find_handler (handlers (application p)) inc) as [cb|] eqn:Hfind;
      [| exact HP].
    apply find_handler_registered in Hfind as (h & Hh & <-).
    destruct Hbuilt as (Hhs & _).
    destruct (handler_footprint cfg env upd (globals p) (callback_of h)
                (Hhs h Hh)) as (Hres & _).
    rewrite guarded_returned by assumption. apply Hstep; [by apply Hhs | exact HP]. }
  destruct inc as [c env upd | env upd | t env]; simpl.
  - apply Hupdate.
  - apply Hupdate.
  - destruct Hbuilt as (_ & _ & Hjobs).
    by destruct (run_due_footprint (application p) cfg env t
                   (job_queue (application p)) (globals p) Hjobs) as [-> _].
Qed.

(** X14.  In every store the process reaches, after any sequence of
    messages, inline queries and timer ticks: every stored
    authentication flag is [True], and only users who have
    authenticated have a country preference or a rotation timestamp. *)
Theorem reachable_stores_are_consistent (cfg : Config) (initial_interval : Z)
    (incoming : list Incoming) :
  store_consistent (snd (torbot cfg initial_interval incoming)).
Proof.
  assert (Hempty : store_consistent empty_store).
  { split; [| split]; simpl.
    - intros v b Hv. by rewrite lookup_empty in Hv.
    - by rewrite dom_empty_L.
    - by rewrite dom_empty_L. }
  unfold torbot.
  destruct (main cfg initial_interval) as [[app|] log] eqn:Hmain;
    [| exact Hempty].
  destruct (main_as_built _ _ _ _ Hmain) as (Hbuilt & _).
  simpl. apply (run_polling_preserves store_consistent); try assumption.
  intros h env upd s. apply handler_keeps_consistent.
Qed.

(** X15.  A rotation that raises starts no cooldown.  When [/update]
    or [/reset] of an authenticated user who is not blocked has passed
    the rate limiter and the rotation raised, an [/update] of the same
    user at any later clock value passes the rate limiter again and
    invokes the rotation client again. *)
Theorem failed_rotation_starts_no_cooldown (cfg : Config) (env1 env2 : Env)
    (upd : Update) (s : Store) (e : exn)
    (h : Config -> Env -> Update -> M unit) :
  let u := effective_user_id upd in
  h ∈ [update_command; reset_command] →
  is_blocked u = false →
  u ∈ dom (authenticated_users s) →
  (RATE_LIMIT <= time env1 - default 0%Q (user_last_update s !! u))%Q →
  res (update_identity cfg (controller env1) None s) = Raised e →
  (time env1 <= time env2)%Q →
  let o1 := h cfg env1 upd s in
  let o2 := update_command cfg env2 upd (store o1) in
  user_last_update (store o1) = user_last_update s ∧
  rotations (emitted o1) = 1%nat ∧
  rotations (emitted o2) = 1%nat.
Proof.
  intros u Hh Hb Ha Hpass He Hlater.
  assert (Hin : h ∈ command_handlers).
  { unfold command_handlers.
    repeat (apply elem_of_cons in Hh as [-> | Hh]);
      [| | by apply elem_of_nil in Hh]; repeat constructor. }
  destruct (handler_effect cfg env1 upd s h Hin) as (Hauth & _ & Hlast).
  cbv zeta in Hauth, Hlast. fold u in Hauth, Hlast.
  assert (Hauth' : authenticated_users (store (h cfg env1 upd s))
                   = authenticated_users s).
  { destruct Hauth as [Heq | (_ & _ & Hnew)]; [exact Heq | contradiction]. }
  assert (Hlast' : user_last_update (store (h cfg env1 upd s))
                   = user_last_update s).
  { destruct Hlast as [Heq | (_ & _ & _ & _ & Hok)]; [exact Heq |].
    rewrite He in Hok. discriminate Hok. }
  cbv zeta. split; [exact Hlast' |]. split.
  - apply Qltb_ge in Hpass.
    repeat (apply elem_of_cons in Hh as [-> | Hh]);
      [| | by apply elem_of_nil in Hh].
    + unfold update_command. fold u. gate Hb Ha. rewrite Hpass.
      destruct (update_identity_outcome cfg (controller env1)
                  (user_preferences s !! u) s)
        as (r & out & -> & _ & _ & Hrot & _).
      destruct r as [[]|e']; simpl; by rewrite rotations_app, Hrot.
    + unfold reset_command. fold u. gate Hb Ha. rewrite Hpass.
      destruct (bool_decide (u ∈ dom (user_preferences s))); simpl;
        match goal with |- context [update_identity cfg ?ctl None ?s'] =>
          destruct (update_identity_outcome cfg ctl None s')
            as (r & out & -> & _ & _ & Hrot & _) end;
        destruct r as [[]|e']; cbn [emitted app];
        change (rotations (Log ?l ?m :: ?tr)) with (rotations tr);
        rewrite ?rotations_app, Hrot; reflexivity.
  - assert (Ha2 : u ∈ dom (authenticated_users (store (h cfg env1 upd s))))
      by by rewrite Hauth'.
    assert (Hpass2 : (RATE_LIMIT <= time env2 -
              default 0%Q (user_last_update (store (h cfg env1 upd s)) !! u))%Q).
    { rewrite Hlast'. eapply Qle_trans; [exact Hpass |].
      apply Qplus_le_l. exact Hlater. }
    destruct (update_command_passed cfg env2 upd _ Hb Ha2 Hpass2)
      as (r & out & _ & _ & Hrot & ->).
    destruct r as [[]|e']; simpl; by rewrite rotations_app, Hrot.
Qed.

Lemma failed_rotation_starts_no_cooldown_witness :
  let o1 := reset_command sample_config
              (sample_env (inject_Z 2000) unreachable_controller)
              (sample_update []) sample_store in
  let o2 := update_command sample_config
              (sample_env (inject_Z 2001) healthy_controller)
              (sample_update []) (store o1) in
  replies (emitted o2) = ["Your Tor identity has been updated!"] ∧
  rotations (emitted o2) = 1%nat.
Proof.
  intros o1 o2.
  assert (Hauth : 42 ∈ dom (authenticated_users sample_store))
    by (apply elem_of_dom; exists true; reflexivity).
  assert (Hpass : (RATE_LIMIT <= inject_Z 2000 -
            default 0%Q (user_last_update sample_store !! 42%Z))%Q)
    by (vm_compute; discriminate 1).
  assert (Hlater : (inject_Z 2000 <= inject_Z 2001)%Q)
    by (vm_compute; discriminate 1).
  destruct (failed_rotation_starts_no_cooldown sample_config
              (sample_env (inject_Z 2000) unreachable_controller)
              (sample_env (inject_Z 2001) healthy_controller)
              (sample_update []) sample_store refused reset_command)
    as (_ & _ & Hrot); try assumption; try reflexivity.
  - repeat constructor.
  - split; [reflexivity | exact Hrot].
Defined.

(** ** Who can rotate, and who can enter *)

Lemma rotations_cons (e : event) (tr : list event) :
  rotations (e :: tr) = (rotations [e] + rotations tr)%nat.
Proof. apply (rotations_app [e] tr). Qed.

(** The rotation of a [/reset] that has passed the gate. *)
Lemma reset_command_passed_rotations cfg env upd s :
  let u := effective_user_id upd in
  is_blocked u = false →
  u ∈ dom (authenticated_users s) →
  (RATE_LIMIT <= time env - default 0%Q (user_last_update s !! u))%Q →
  rotations (emitted (reset_command cfg env upd s)) = 1%nat.
Proof.
  intros u Hb Ha Hpass. apply Qltb_ge in Hpass.
  unfold reset_command. fold u. gate Hb Ha. rewrite Hpass.
  destruct (bool_decide (u ∈ dom (user_preferences s))); simpl;
    match goal with |- context [update_identity cfg ?ctl None ?s'] =>
      destruct (update_identity_outcome cfg ctl None s')
        as (r & out & -> & _ & _ & Hrot & _) end;
    destruct r as [[]|e']; cbn [emitted app];
    change (rotations (Log ?l ?m :: ?tr)) with (rotations tr);
    rewrite ?rotations_app, Hrot; reflexivity.
Qed.

Ltac never_rotates :=
  unfold_m; crunch; unfold rotations, tor_cmds; simpl;
  (split; [lia | intros H; by contradiction H]).

(** X16.  Every rotation a command triggers has passed the whole
    gate.  A handler registered for a command invokes the rotation
    client at most once, and when it does the command is [/update] or
    [/reset] and the caller is not blocked, is authenticated and is
    past the cooldown. *)
Theorem command_rotation_passed_the_gate (cfg : Config) (env : Env)
    (upd : Update) (s : Store) (name : string)
    (h : Config -> Env -> Update -> M unit) :
  (name, h) ∈ command_table →
  let u := effective_user_id upd in
  let o := h cfg env upd s in
  (rotations (emitted o) <= 1)%nat ∧
  (rotations (emitted o) ≠ 0%nat →
     (name = "update" ∨ name = "reset") ∧
     is_blocked u = false ∧
     u ∈ dom (authenticated_users s) ∧
     (RATE_LIMIT <= time env - default 0%Q (user_last_update s !! u))%Q).
Proof.
  intros Hin u. unfold command_table in Hin. cbv zeta.
  assert (Hgated : ∀ h' : Config -> Env -> Update -> M unit,
    (is_blocked u = true → rotations (emitted (h' cfg env upd s)) = 0%nat) →
    (is_blocked u = false → u ∉ dom (authenticated_users s) →
       rotations (emitted (h' cfg env upd s)) = 0%nat) →
    (is_blocked u = false → u ∈ dom (authenticated_users s) →
     (time env - default 0%Q (user_last_update s !! u) < RATE_LIMIT)%Q →
       rotations (emitted (h' cfg env upd s)) = 0%nat) →
    (is_blocked u = false → u ∈ dom (authenticated_users s) →
     (RATE_LIMIT <= time env - default 0%Q (user_last_update s !! u))%Q →
       rotations (emitted (h' cfg env upd s)) = 1%nat) →
    (rotations (emitted (h' cfg env upd s)) <= 1)%nat ∧
    (rotations (emitted (h' cfg env upd s)) ≠ 0%nat →
       is_blocked u = false ∧ u ∈ dom (authenticated_users s) ∧
       (RATE_LIMIT <= time env - default 0%Q (user_last_update s !! u))%Q)).
  { intros h' Hblocked Hunauth Hlimited Hpassed.
    destruct (is_blocked u) eqn:Hb; [rewrite Hblocked by reflexivity; lia |].
    destruct (decide (u ∈ dom (authenticated_users s))) as [Ha | Ha];
      [| rewrite Hunauth by done; lia].
    destruct (Qlt_le_dec (time env - default 0%Q (user_last_update s !! u))
                RATE_LIMIT) as [Hlt | Hge].
    - rewrite Hlimited by done. lia.
    - rewrite Hpassed by done. split; [lia | auto]. }
  repeat (apply elem_of_cons in Hin as [[= -> ->] | Hin]);
    [| | | | | | | by apply elem_of_nil in Hin].
  - unfold start_command. fold u. never_rotates.
  - unfold help_command. fold u. never_rotates.
  - unfold auth_command. fold u. never_rotates.
  - destruct (Hgated update_command) as [Hle Hgate].
    + intros Hb. unfold update_command. fold u. unfold_m. by rewrite Hb.
    + intros Hb Ha. unfold update_command. fold u. unfold_m. rewrite Hb.
      by rewrite bool_decide_eq_false_2.
    + intros Hb Ha Hlt.
      by rewrite (update_command_limited cfg env upd s Hb Ha Hlt).
    + intros Hb Ha Hge.
      destruct (update_command_passed cfg env upd s Hb Ha Hge)
        as (r & out & _ & _ & Hrot & ->).
      destruct r as [[]|e']; simpl; by rewrite rotations_app, Hrot.
    + split; [exact Hle | intros Hr; split; [by left | by apply Hgate]].
  - unfold set_country_command. fold u. never_rotates.
  - destruct (Hgated reset_command) as [Hle Hgate].
    + intros Hb. unfold reset_command. fold u. unfold_m. by rewrite Hb.
    + intros Hb Ha. unfold reset_command. fold u. unfold_m. rewrite Hb.
      by rewrite bool_decide_eq_false_2.
    + intros Hb Ha Hlt.
      by rewrite (reset_command_limited cfg env upd s Hb Ha Hlt).
    + intros Hb Ha Hge. by apply reset_command_passed_rotations.
    + split; [exact Hle | intros Hr; split; [by right | by apply Hgate]].
  - unfold countries_command. fold u. never_rotates.
Qed.

Lemma command_rotation_passed_the_gate_witness :
  rotations (emitted (update_command sample_config
                        (sample_env (inject_Z 1200) healthy_controller)
                        (sample_update []) sample_store)) = 0%nat ∧
  (rotations (emitted (reset_command sample_config
                         (sample_env (inject_Z 2000) healthy_controller)
                         (sample_update []) sample_store)) <= 1)%nat.
Proof.
  split; [reflexivity |].
  apply (command_rotation_passed_the_gate sample_config
           (sample_env (inject_Z 2000) healthy_controller)
           (sample_update []) sample_store "reset" reset_command).
  unfold command_table. repeat constructor.
Defined.

Lemma handler_keeps_blocked_out cfg env upd s h :
  h ∈ command_handlers →
  no_blocked_entry s → no_blocked_entry (store (h cfg env upd s)).
Proof.
  intros Hh Hs v Hv. destruct (Hs v Hv) as (Hav & Hpv & Hlv).
  destruct (handler_effect cfg env upd s h Hh) as (Ha & Hp & Hl).
  cbv zeta in Ha, Hp, Hl.
  assert (Hother : is_blocked (effective_user_id upd) = false →
                   effective_user_id upd ≠ v) by (intros Hb <-; congruence).
  destruct (is_blocked (effective_user_id upd)) eqn:Hb.
  - destruct Ha as [-> | (_ & Hfalse & _)]; [| discriminate Hfalse].
    destruct Hl as [-> | (_ & Hfalse & _)]; [| discriminate Hfalse].
    destruct Hp as [-> | [-> | (c & -> & _ & Hu)]].
    + auto.
    + split; [exact Hav | split; [| exact Hlv]].
      apply lookup_delete_None. by right.
    + destruct (Hs _ Hb) as (Hnone & _).
      apply elem_of_dom in Hu as [b Hu]. congruence.
  - specialize (Hother eq_refl). split; [| split].
    + destruct Ha as [-> | (-> & _)]; [exact Hav |].
      by rewrite lookup_insert_ne.
    + destruct Hp as [-> | [-> | (c & -> & _)]]; [exact Hpv | |].
      * apply lookup_delete_None. by right.
      * by rewrite lookup_insert_ne.
    + destruct Hl as [-> | (-> & _)]; [exact Hlv |].
      by rewrite lookup_insert_ne.
Qed.

(** X17.  A blocked user never gets in.  In every store the process
    reaches, after any sequence of messages, inline queries and timer
    ticks from anyone, no blocked user is authenticated, has a country
    preference or has a rotation timestamp, whatever password they
    sent. *)
Theorem blocked_users_never_enter (cfg : Config) (initial_interval : Z)
    (incoming : list Incoming) :
  no_blocked_entry (snd (torbot cfg initial_interval incoming)).
Proof.
  assert (Hempty : no_blocked_entry empty_store)
    by (intros v _; simpl; by rewrite !lookup_empty).
  unfold torbot.
  destruct (main cfg initial_interval) as [[app|] log] eqn:Hmain;
    [| exact Hempty].
  destruct (main_as_built _ _ _ _ Hmain) as (Hbuilt & _).
  simpl. apply (run_polling_preserves no_blocked_entry); try assumption.
  intros h env upd s. apply handler_keeps_blocked_out.
Qed.

(** ** Help *)

(** X18.  [/start] and [/help] ask for no authentication: for any
    caller who is not blocked they reply with the welcome line and
    with the HTML help text, leave the store as it is and issue no Tor
    command.  The help text names every command [main] registers. *)
Theorem start_and_help_are_open (cfg : Config) (env : Env) (upd : Update)
    (s : Store) :
  is_blocked (effective_user_id upd) = false →
  (let o := start_command cfg env upd s in
   res o = Val tt ∧ store o = s ∧ tor_cmds (emitted o) = [] ∧
   user_visible (emitted o) =
     [ReplyText "Tor management bot. Use /auth <password> to authenticate." None]) ∧
  (let o := help_command cfg env upd s in
   res o = Val tt ∧ store o = s ∧ tor_cmds (emitted o) = [] ∧
   user_visible (emitted o) = [ReplyText help_text (Some "HTML")]) ∧
  (∀ name, name ∈ command_table.*1 → contains ("/" +:+ name) help_text = true).
Proof.
  intros Hb. split; [| split].
  - unfold start_command. unfold_m. rewrite Hb. repeat split; reflexivity.
  - unfold help_command. unfold_m. rewrite Hb. repeat split; reflexivity.
  - intros name Hname. simpl in Hname.
    repeat (apply elem_of_cons in Hname as [-> | Hname]);
      [| | | | | | | by apply elem_of_nil in Hname]; by vm_compute.
Qed.

Lemma start_and_help_are_open_witness :
  user_visible (emitted (help_command sample_config
                           (sample_env (inject_Z 0) unreachable_controller)
                           (sample_update []) empty_store))
    = [ReplyText help_text (Some "HTML")] ∧
  contains "/setcountry" help_text = true.
Proof.
  destruct (start_and_help_are_open sample_config
              (sample_env (inject_Z 0) unreachable_controller)
              (sample_update []) empty_store eq_refl)
    as (_ & (_ & _ & _ & Hhelp) & Hnames).
  split; [exact Hhelp |].
  apply (Hnames "setcountry"). simpl. repeat constructor.
Defined.
